(** * sentry: the event model (sentry.models.event) and the external-issue
      endpoint, embedded in Rocq.

    Python values are embedded as a small inductive type, dictionaries as
    finite maps, exceptions as an explicit result type.  Collaborators that
    live outside the modelled files (md5, the nodestore path helper, the
    grouping resolver, the relational store, ...) are taken as parameters. *)

From Stdlib Require Import QArith.
From stdpp Require Import gmap strings list fin_maps sorting pretty.

Set Default Proof Using "Type".
Open Scope Z_scope.

(** ** Python values and exceptions *)

Inductive pyval : Type :=
  | VNone
  | VBool (b : bool)
  | VInt (z : Z)
  | VStr (s : string)
  | VList (l : list pyval)
  | VDict (d : gmap string pyval).

Inductive exn : Type :=
  | ValueError
  | TypeError
  | IndexError
  | KeyError
  | AttributeError
  | AssertionError
  | NotImplementedError
  | DoesNotExist
  | KeyboardInterrupt
  | SystemExit.

(** [isinstance(e, Exception)]: what [except Exception] catches.
    [KeyboardInterrupt] and [SystemExit] derive from [BaseException]
    only. *)
Definition is_Exception (e : exn) : bool :=
  match e with
  | KeyboardInterrupt | SystemExit => false
  | _ => true
  end.

Inductive result (A : Type) : Type :=
  | Ok (a : A)
  | Raise (e : exn).
Arguments Ok {A} a.
Arguments Raise {A} e.

Definition bind {A B} (r : result A) (k : A → result B) : result B :=
  match r with
  | Ok a => k a
  | Raise e => Raise e
  end.

Notation "'let!' x ':=' r 'in' k" := (bind r (λ x, k))
  (at level 10, x name, r at level 100, k at level 200, only parsing).

Fixpoint traverse {A B} (f : A → result B) (l : list A) : result (list B) :=
  match l with
  | [] => Ok []
  | a :: l' =>
      let! b := f a in
      let! bs := traverse f l' in
      Ok (b :: bs)
  end.

(** Python truthiness: what [if v], [not v], [v or w] and [filter(None, _)]
    look at. *)
Definition truthy (v : pyval) : bool :=
  match v with
  | VNone => false
  | VBool b => b
  | VInt z => negb (z =? 0)
  | VStr s => negb (String.eqb s "")
  | VList l => negb (Nat.eqb (length l) 0)
  | VDict d => negb (Nat.eqb (size d) 0)
  end.

Definition is_none (v : pyval) : bool :=
  match v with VNone => true | _ => false end.

(** ** Tag atoms and their order

    A tag key or value is [None] or a string.  Python 2 orders [None] below
    every string, strings by code point, and tuples lexicographically. *)

Definition atom : Type := option string.

Definition atom_le (a b : atom) : Prop :=
  match a, b with
  | None, _ => True
  | Some _, None => False
  | Some s, Some t => String.le s t
  end.

Definition tag_le (p q : atom * atom) : Prop :=
  if decide (p.1 = q.1) then atom_le p.2 q.2 else atom_le p.1 q.1.

Global Instance atom_le_dec : RelDecision atom_le.
Proof. intros [s|] [t|]; simpl; apply _. Defined.

Global Instance tag_le_dec : RelDecision tag_le.
Proof. intros p q. unfold tag_le. destruct (decide (p.1 = q.1)); apply _. Defined.

(** [sorted(xs)] on tag pairs.  The order is total and antisymmetric, so the
    sorted arrangement of a list is unique and the choice of algorithm is
    not observable. *)
Definition sorted_tags (l : list (atom * atom)) : list (atom * atom) :=
  merge_sort tag_le l.

Definition atom_to_py (a : atom) : pyval :=
  match a with None => VNone | Some s => VStr s end.

(** ** EventCommon.tags *)

(** What [for t, v in ...] finds when it iterates one entry of the tag
    list: the members of the entry (the items of a list or a tuple, the
    characters of a string), or that the entry cannot be iterated (a
    number, a boolean, [None]).  Members are tag atoms. *)
Inductive tag_entry : Type :=
  | Sequence (items : list atom)
  | NotIterable.

(** The value of [get_path(self.data, 'tags', filter=True)]: a falsy value
    ([None], an empty list), for which [raw or ()] is the empty tuple; the
    entries of a non-empty list; or a truthy value that cannot be iterated. *)
Inductive raw_tags : Type :=
  | RawFalsy
  | RawEntries (entries : list tag_entry)
  | RawNotIterable.

(** [for t, v in ...]: an entry unpacks when it is a sequence of exactly two
    members; a sequence of another length raises ValueError, an entry that
    cannot be iterated raises TypeError. *)
Definition unpack2 (item : tag_entry) : result (atom * atom) :=
  match item with
  | Sequence [t; v] => Ok (t, v)
  | Sequence _ => Raise ValueError
  | NotIterable => Raise TypeError
  end.

Definition is_not_none (a : atom) : bool :=
  match a with None => false | Some _ => true end.

(** Iterating [raw or ()]. *)
Definition iter_raw_tags (raw : raw_tags) : result (list tag_entry) :=
  match raw with
  | RawFalsy => Ok []
  | RawEntries entries => Ok entries
  | RawNotIterable => Raise TypeError
  end.

(** The entries are unpacked from left to right, so the first entry that
    does not unpack decides: only its ValueError is caught. *)
Definition EventCommon_tags (raw : raw_tags) : result (list (atom * atom)) :=
  match (let! entries := iter_raw_tags raw in traverse unpack2 entries) with
  | Ok pairs =>
      Ok (sorted_tags (filter (λ p, is_not_none p.1 && is_not_none p.2) pairs))
  | Raise ValueError => Ok []
  | Raise e => Raise e
  end.

(** ** SnubaEvent.tags *)

(** [keys] and [values] are [getattr(self, 'tags.key', None)] and
    [getattr(self, 'tags.value', None)], each [None] or a list of tag
    atoms. *)
Definition SnubaEvent_tags (keys values : option (list atom)) : list (atom * atom) :=
  match keys, values with
  | Some ks, Some vs =>
      if negb (Nat.eqb (length ks) 0) && negb (Nat.eqb (length vs) 0)
         && Nat.eqb (length ks) (length vs)
      then sorted_tags (zip ks vs)
      else []
  | _, _ => []
  end.


(** An entry that unpacks. *)
Definition is_pair (item : tag_entry) : Prop :=
  match item with
  | Sequence [_; _] => True
  | _ => False
  end.

(** What the tags invariant asks of one pair, and of a whole tag list. *)
Definition no_none (p : atom * atom) : Prop := p.1 ≠ None ∧ p.2 ≠ None.

Definition tags_ok (l : list (atom * atom)) : Prop :=
  StronglySorted tag_le l ∧ Forall no_none l.


(** ** Collaborators outside the modelled files

    Library calls and helpers of other modules, taken as given. *)
Class Externals := {
  (** [hashlib.md5(s).hexdigest()] *)
  md5_hexdigest : string → string;
  (** [str()] of a list or a dict, as used by [str.format] *)
  container_str : pyval → string;
  (** [sentry.grouping.api.get_grouping_variants_for_event(event)]: the
      variants in the order of the returned mapping, each with the value of
      its [get_hash()] *)
  get_grouping_variants_for_event : gmap string pyval → list (string * pyval);
  (** [StoreNormalizer(is_renormalize=True).normalize_event(data)] *)
  normalize_event : gmap string pyval → gmap string pyval;
  (** [sentry.interfaces.base.get_interfaces(data, rust_renormalized=b)] *)
  interfaces_get_interfaces : gmap string pyval → bool → gmap string pyval;
  (** [options.get('store.empty-interface-sample-rate')], a float, by its
      value *)
  sample_rate : Q;
  (** The float nearest to a real number: a product of two floats is the
      exact product rounded.  Rounding is monotone and leaves the integers
      up to [2 ** 53] as they are. *)
  float_round : Q → Q;
  float_round_mono : ∀ x y : Q, (x <= y)%Q → (float_round x <= float_round y)%Q;
  float_round_integer : ∀ k : Z,
    Z.abs k ≤ 2 ^ 53 → (float_round (inject_Z k) == inject_Z k)%Q;
}.

Section event.
Context `{Externals}.

(** ** The renormalization gate *)

Definition hex_digit (c : Ascii.ascii) : option Z :=
  let n := Z.of_N (Ascii.N_of_ascii c) in
  if (48 <=? n) && (n <=? 57) then Some (n - 48)
  else if (97 <=? n) && (n <=? 102) then Some (n - 87)
  else if (65 <=? n) && (n <=? 70) then Some (n - 55)
  else None.

Fixpoint int_base16_go (acc : Z) (s : string) : option Z :=
  match s with
  | EmptyString => Some acc
  | String c s' =>
      match hex_digit c with
      | Some d => int_base16_go (16 * acc + d) s'
      | None => None
      end
  end.

(** [int(s, 16)] on a string of hexadecimal digits; ValueError otherwise. *)
Definition int_base16 (s : string) : result Z :=
  match s with
  | EmptyString => Raise ValueError
  | _ => match int_base16_go 0 s with
         | Some z => Ok z
         | None => Raise ValueError
         end
  end.

(** [md5(x)] accepts a string and raises TypeError on anything else. *)
Definition md5_of (v : pyval) : result string :=
  match v with
  | VStr s => Ok (md5_hexdigest s)
  | _ => Raise TypeError
  end.

(** [sample_rate * (10 ** 8)] is a product of floats; the comparison of
    the integer residue with it is exact. *)
Definition _should_skip_to_python (event_data : gmap string pyval) : result bool :=
  let event_id := default VNone (event_data !! "event_id") in
  if negb (truthy event_id) then Ok false
  else if Qeq_bool sample_rate 0%Q then Ok false
  else
    let! digest := md5_of event_id in
    let! n := int_base16 digest in
    Ok (Qle_bool (inject_Z (n `mod` 10 ^ 8))
                 (float_round (sample_rate * inject_Z (10 ^ 8)))).

(** What constructing an [EventDict] does besides storing the data. *)
Inductive effect : Type :=
  | NormalizeEvent
  | MetricsIncr (value : bool)
  | ScopeSetTag (value : bool).

(** [EventDict.__init__]: the data handed to [CanonicalKeyDict.__init__]
    and the calls made on the way. *)
Definition EventDict_init (data : gmap string pyval)
    : result (gmap string pyval * list effect) :=
  let! rust_renormalized := _should_skip_to_python data in
  let '(data, pre) :=
    if rust_renormalized : bool
    then (normalize_event data, [NormalizeEvent])
    else (data, []) in
  Ok (data, pre ++ [MetricsIncr rust_renormalized; ScopeSetTag rust_renormalized]).

(** [EventCommon.get_interfaces] *)
Definition get_interfaces (data : gmap string pyval) : result (gmap string pyval) :=
  let! was_renormalized := _should_skip_to_python data in
  Ok (interfaces_get_interfaces data was_renormalized).

(** ** Node ids *)

(** [str(v)] as [str.format] inserts it for a bare [{}] field. *)
Definition py_str (v : pyval) : string :=
  match v with
  | VNone => "None"
  | VBool true => "True"
  | VBool false => "False"
  | VInt z => pretty z
  | VStr s => s
  | VList _ | VDict _ => container_str v
  end.

(** [EventCommon.generate_node_id] *)
Definition generate_node_id (project_id event_id : pyval) : string :=
  md5_hexdigest (py_str project_id ++ ":" ++ py_str event_id).



(** ** Hashes *)

(** [EventCommon.get_grouping_variants] *)
Definition get_grouping_variants (data : gmap string pyval) : list (string * pyval) :=
  get_grouping_variants_for_event data.

(** [EventCommon.get_hashes] *)
Definition get_hashes (data : gmap string pyval) : pyval :=
  let hashes := default VNone (data !! "hashes") in
  if negb (is_none hashes) then hashes
  else VList (filter (λ h, truthy h) ((get_grouping_variants data).*2)).

(** [v[0]] *)
Definition py_index0 (v : pyval) : result pyval :=
  match v with
  | VList (x :: _) => Ok x
  | VList [] => Raise IndexError
  | VStr (String c _) => Ok (VStr (String c EmptyString))
  | VStr EmptyString => Raise IndexError
  | VDict _ => Raise KeyError
  | VNone | VBool _ | VInt _ => Raise TypeError
  end.

(** [EventCommon.get_primary_hash] *)
Definition get_primary_hash (data : gmap string pyval) : result pyval :=
  py_index0 (get_hashes data).

(** ** SnubaEvent *)

Definition selected_columns : list string :=
  [ "event_id"; "project_id"; "message"; "title"; "type"; "location";
    "culprit"; "timestamp"; "group_id"; "platform";
    "tags.key"; "tags.value";
    "user_id"; "username"; "ip_address"; "email" ].

(** [NodeData(None, node_id, data=None)]: the key of the body in
    nodestore, and the body once it has been loaded. *)
Record NodeData := {
  node_id : string;
  node_body : option (gmap string pyval);
}.

(** A [SnubaEvent] instance: the row it took as its [__dict__], and the
    [data] attribute bound after it. *)
Record SnubaEvent := {
  snuba_values : gmap string pyval;
  snuba_data : NodeData;
}.

(** Attribute lookup [self.<name>] on the instance dictionary. *)
Definition getattr (values : gmap string pyval) (name : string) : result pyval :=
  match values !! name with
  | Some v => Ok v
  | None => Raise AttributeError
  end.

(** [SnubaEvent.__init__] *)
Definition SnubaEvent_init (snuba_values : gmap string pyval) : result SnubaEvent :=
  if decide (dom snuba_values = list_to_set selected_columns) then
    let! project_id := getattr snuba_values "project_id" in
    let! event_id := getattr snuba_values "event_id" in
    let node_id := generate_node_id project_id event_id in
    Ok {| snuba_values := snuba_values;
          snuba_data := {| node_id := node_id; node_body := None |} |}
  else Raise AssertionError.

(** [SnubaEvent.id] *)
Definition SnubaEvent_id (e : SnubaEvent) : result pyval :=
  getattr (snuba_values e) "event_id".

(** [SnubaEvent.next_event] *)
Definition SnubaEvent_next_event (e : SnubaEvent) : option SnubaEvent := None.

(** [SnubaEvent.prev_event] *)
Definition SnubaEvent_prev_event (e : SnubaEvent) : option SnubaEvent := None.

(** [SnubaEvent.save] *)
Definition SnubaEvent_save (e : SnubaEvent) : result unit :=
  Raise NotImplementedError.

End event.

(** A concrete environment to run the definitions on: a toy digest, no
    grouping variants but one per stored "variants" entry, an identity
    normalizer, and rates whose products need no rounding.  Nothing that is
    proved depends on it. *)
Definition toy_digest (s : string) : string :=
  pretty (Z.of_nat (String.length s)) ++ "a".

Definition example_externals (rate : Q) : Externals := {|
  md5_hexdigest := toy_digest;
  container_str := λ _, "[...]";
  get_grouping_variants_for_event := λ data,
    match data !! "variants" with
    | Some (VList l) => imap (λ i h, (pretty (Z.of_nat i), h)) l
    | _ => []
    end;
  normalize_event := λ data, data;
  interfaces_get_interfaces := λ data b, <["rust_renormalized" := VBool b]> data;
  sample_rate := rate;
  float_round := λ x, x;
  float_round_mono := λ x y Hxy, Hxy;
  float_round_integer := λ k Hk, Qeq_refl (inject_Z k);
|}.

(** The row of a well-formed query answer, every column holding its own
    name. *)
Definition example_row : gmap string pyval :=
  list_to_map ((λ c, (c, VStr c)) <$> selected_columns).


(** ** The external-issue endpoint
    (SentryAppInstallationExternalIssuesEndpoint.post) *)

Record Response := {
  status : Z;
  body : pyval;
}.

(** The collaborators the handler calls, in the order it calls them.  The
    request body is a mapping with string keys. *)
Inductive call : Type :=
  | FeaturesHas
  | GroupObjectsGet (group_id : pyval)
  | IssueLinkCreatorRun (group action : pyval) (fields : gmap string pyval) (uri : pyval).

Record Endpoint := {
  (** [features.has('organizations:sentry-apps', installation.organization,
      actor=request.user)] *)
  features_has : result bool;
  (** [Group.objects.get(id=group_id, project_id__in=...)] *)
  Group_objects_get : pyval → result pyval;
  (** [IssueLinkCreator.run(install, group, action, fields, uri)] *)
  IssueLinkCreator_run : pyval → pyval → gmap string pyval → pyval → result pyval;
  (** [serialize(external_issue)] *)
  serialize : pyval → result pyval;
}.

Definition required_fields : list string := ["groupId"; "action"; "uri"].

(** [post(self, request, installation)] on the request body [DATA]: the
    response, or the exception that leaves the handler, with the calls made.
    [except Exception] around the creator catches what [is_Exception]
    says; [serialize] is called outside of it. *)
Definition post (env : Endpoint) (DATA : gmap string pyval)
    : result Response * list call :=
  match features_has env with
  | Raise e => (Raise e, [FeaturesHas])
  | Ok false => (Ok {| status := 404; body := VNone |}, [FeaturesHas])
  | Ok true =>
    let data := DATA in
    if negb (bool_decide (list_to_set required_fields ⊆ dom data)) then
      (Ok {| status := 400; body := VNone |}, [FeaturesHas])
    else
      let group_id := default VNone (data !! "groupId") in
      let data := delete "groupId" data in
      match Group_objects_get env group_id with
      | Raise DoesNotExist =>
          (Ok {| status := 404; body := VNone |},
           [FeaturesHas; GroupObjectsGet group_id])
      | Raise e => (Raise e, [FeaturesHas; GroupObjectsGet group_id])
      | Ok group =>
          match data !! "action" with
          | None => (Raise KeyError, [FeaturesHas; GroupObjectsGet group_id])
          | Some action =>
              let data := delete "action" data in
              let uri := default VNone (data !! "uri") in
              let data := delete "uri" data in
              let calls := [FeaturesHas; GroupObjectsGet group_id;
                            IssueLinkCreatorRun group action data uri] in
              match IssueLinkCreator_run env group action data uri with
              | Raise e =>
                  if is_Exception e then
                    (Ok {| status := 400;
                           body := VDict {["error" :=
                             VStr "Error communicating with Sentry App service"]} |},
                     calls)
                  else (Raise e, calls)
              | Ok external_issue =>
                  match serialize env external_issue with
                  | Ok serialized =>
                      (Ok {| status := 200; body := serialized |}, calls)
                  | Raise e => (Raise e, calls)
                  end
              end
          end
      end
  end.

Definition is_creator_call (c : call) : Prop :=
  match c with IssueLinkCreatorRun _ _ _ _ => True | _ => False end.

(** An installation whose organization has the feature switched on or off,
    with one group (id 7) and a creator that echoes the action. *)
Definition example_endpoint (feature : bool) : Endpoint := {|
  features_has := Ok feature;
  Group_objects_get := λ id,
    match id with VInt 7 => Ok (VInt 7) | _ => Raise DoesNotExist end;
  IssueLinkCreator_run := λ group action fields uri, Ok action;
  serialize := λ issue, Ok issue;
|}.

(** A request body without [uri]. *)
Definition DATA_missing_uri : gmap string pyval :=
  {["groupId" := VInt 7; "action" := VStr "create"]}.

(** A complete request body with one extra form field. *)
Definition DATA_complete : gmap string pyval :=
  {["groupId" := VInt 7; "action" := VStr "create";
    "uri" := VStr "/link"; "title" := VStr "crash"]}.

(** The same installation with a creator that always fails. *)
Definition failing_endpoint (e : exn) : Endpoint := {|
  features_has := Ok true;
  Group_objects_get := Group_objects_get (example_endpoint true);
  IssueLinkCreator_run := λ group action fields uri, Raise e;
  serialize := λ issue, Ok issue;
|}.

(** The same installation on a store whose group lookup breaks. *)
Definition broken_store_endpoint (e : exn) : Endpoint := {|
  features_has := Ok true;
  Group_objects_get := λ id, Raise e;
  IssueLinkCreator_run := λ group action fields uri, Ok action;
  serialize := λ issue, Ok issue;
|}.

(** The same installation with a serializer that breaks. *)
Definition broken_serializer_endpoint (e : exn) : Endpoint := {|
  features_has := Ok true;
  Group_objects_get := Group_objects_get (example_endpoint true);
  IssueLinkCreator_run := λ group action fields uri, Ok action;
  serialize := λ issue, Raise e;
|}.

(** ** The relational-backed Event and its neighbours *)

Module Event.

(** A row of the event table.  [datetime] is in seconds. *)
Record t := {
  id : Z;
  group_id : option Z;
  event_id : pyval;
  project_id : pyval;
  message : pyval;
  platform : pyval;
  datetime : Z;
  time_spent : pyval;
  data : gmap string pyval;
}.

(** Modelled from the spec: [sentry.constants.EVENT_ORDERING_KEY] is not
    among the modelled files; the spec names the composite
    [(datetime, id)] ordering. *)
Definition EVENT_ORDERING_KEY (x : t) : Z * Z := (datetime x, id x).

(** Tuple comparison [a <= b] and [a >= b]. *)
Definition key_le (a b : Z * Z) : bool :=
  (a.1 <? b.1) || ((a.1 =? b.1) && (a.2 <=? b.2)).

Definition key_ge (a b : Z * Z) : bool := key_le b a.

(** [events.sort(key=EVENT_ORDERING_KEY, reverse=...)]: a stable sort, in
    both directions. *)
Fixpoint insert_by (le : Z * Z → Z * Z → bool) (x : t) (l : list t) : list t :=
  match l with
  | [] => [x]
  | y :: l' =>
      if le (EVENT_ORDERING_KEY x) (EVENT_ORDERING_KEY y)
      then x :: y :: l'
      else y :: insert_by le x l'
  end.

Definition sort_by_key (reverse : bool) (l : list t) : list t :=
  foldr (insert_by (if reverse then key_ge else key_le)) [] l.

(** [filter(datetime__gte=self.datetime, group_id=self.group_id)
      .exclude(id=self.id)] *)
Definition next_candidates (self : t) (table : list t) : list t :=
  filter (λ e, datetime self ≤ datetime e ∧ group_id e = group_id self
               ∧ id e ≠ id self) table.

(** [filter(datetime__lte=self.datetime, group_id=self.group_id)
      .exclude(id=self.id)] *)
Definition prev_candidates (self : t) (table : list t) : list t :=
  filter (λ e, datetime e ≤ datetime self ∧ group_id e = group_id self
               ∧ id e ≠ id self) table.

(** Ascending and descending order on the datetime column. *)
Definition datetime_le (a b : t) : Prop := datetime a ≤ datetime b.

Definition datetime_ge (a b : t) : Prop := datetime b ≤ datetime a.

Global Instance datetime_le_dec : RelDecision datetime_le.
Proof. intros a b. unfold datetime_le. apply _. Defined.

Global Instance datetime_ge_dec : RelDecision datetime_ge.
Proof. intros a b. unfold datetime_ge. apply _. Defined.

(** [.order_by('datetime')[0:5]]: the first five candidates in ascending
    datetime order.  The store is free in how it orders rows of equal
    datetime, so a window is any list that arises this way. *)
Definition next_window (self : t) (table w : list t) : Prop :=
  ∃ rows, rows ≡ₚ next_candidates self table ∧
          StronglySorted datetime_le rows ∧
          w = take 5 rows.

(** [.order_by('-datetime')[0:5]] *)
Definition prev_window (self : t) (table w : list t) : Prop :=
  ∃ rows, rows ≡ₚ prev_candidates self table ∧
          StronglySorted datetime_ge rows ∧
          w = take 5 rows.

(** One store that can be run: it orders by a merge sort on datetime. *)
Definition next_query (self : t) (table : list t) : list t :=
  take 5 (merge_sort datetime_le (next_candidates self table)).

Definition prev_query (self : t) (table : list t) : list t :=
  take 5 (merge_sort datetime_ge (prev_candidates self table)).

(** [e.datetime == self.datetime and e.id > self.id or
     e.datetime > self.datetime] *)
Definition after (self e : t) : bool :=
  (datetime e =? datetime self) && (id self <? id e)
  || (datetime self <? datetime e).

(** [e.datetime == self.datetime and e.id < self.id or
     e.datetime < self.datetime] *)
Definition before (self e : t) : bool :=
  (datetime e =? datetime self) && (id e <? id self)
  || (datetime e <? datetime self).

(** The body of [Event.next_event] after the query. *)
Definition next_event_of (self : t) (events : list t) : option t :=
  head (sort_by_key false (filter (λ e, after self e) events)).

(** The body of [Event.prev_event] after the query. *)
Definition prev_event_of (self : t) (events : list t) : option t :=
  head (sort_by_key true (filter (λ e, before self e) events)).

Definition next_event (self : t) (table : list t) : option t :=
  next_event_of self (next_query self table).

Definition prev_event (self : t) (table : list t) : option t :=
  prev_event_of self (prev_query self table).

(** The order that a sort on [EVENT_ORDERING_KEY] establishes. *)
Definition by_key (le : Z * Z → Z * Z → bool) (a b : t) : Prop :=
  le (EVENT_ORDERING_KEY a) (EVENT_ORDERING_KEY b) = true.

(** An event of group 1 with the given row id and datetime. *)
Definition example (i d : Z) : t := {|
  id := i; group_id := Some 1; event_id := VStr (pretty i);
  project_id := VInt 1; message := VStr ""; platform := VNone;
  datetime := d; time_spent := VNone; data := ∅;
|}.

End Event.

(** ** Tag lookup *)

(** [EventCommon.get_tag] on the value of [self.get_tags()]: the value of
    the first pair whose key equals [key], [None] when there is none. *)
Fixpoint get_tag (tags : list (atom * atom)) (key : string) : atom :=
  match tags with
  | [] => None
  | (t, v) :: tags' => if decide (t = Some key) then v else get_tag tags' key
  end.

(** [EventCommon.release], [EventCommon.dist], [EventCommon.transaction] *)
Definition release (tags : list (atom * atom)) : atom := get_tag tags "sentry:release".

Definition dist (tags : list (atom * atom)) : atom := get_tag tags "sentry:dist".

Definition transaction (tags : list (atom * atom)) : atom := get_tag tags "transaction".

(** A raw tag list with a repeated key, a [None] value and a release. *)
Definition example_raw_tags : list (list atom) :=
  [ [Some "level"; Some "error"]; [Some "sentry:release"; Some "2.0"];
    [Some "level"; Some "debug"]; [Some "server"; None] ].

(** ** EventCommon.as_dict *)

(** [s.startswith(p)] *)
Fixpoint startswith (p s : string) : bool :=
  match p, s with
  | EmptyString, _ => true
  | String a p', String b s' => Ascii.eqb a b && startswith p' s'
  | String _ _, EmptyString => false
  end.

(** [s[n:]] *)
Fixpoint string_drop (n : nat) (s : string) : string :=
  match n, s with
  | O, _ => s
  | S n', String _ s' => string_drop n' s'
  | S _, EmptyString => EmptyString
  end.

(** What follows the first occurrence of [sep] in [s], if it occurs. *)
Fixpoint after_first (sep s : string) : option string :=
  if startswith sep s then Some (string_drop (String.length sep) s)
  else match s with
       | EmptyString => None
       | String _ s' => after_first sep s'
       end.

(** [s.split(sep, 1)[-1]] for a non-empty [sep]. *)
Definition split1_last (sep s : string) : string :=
  default s (after_first sep s).

(** [collections.OrderedDict]: the items in insertion order.  Assigning to
    a key that is present keeps its position. *)
Definition odict : Type := list (string * pyval).

Fixpoint od_get (d : odict) (k : string) : option pyval :=
  match d with
  | [] => None
  | (k', v) :: d' => if decide (k' = k) then Some v else od_get d' k
  end.

Fixpoint od_set (d : odict) (k : string) (v : pyval) : odict :=
  match d with
  | [] => [(k, v)]
  | (k', v') :: d' =>
      if decide (k' = k) then (k, v) :: d' else (k', v') :: od_set d' k v
  end.

Definition od_contains (d : odict) (k : string) : bool :=
  bool_decide (k ∈ d.*1).

Module EventCommon.

(** What [as_dict] reads off the event.  [tags] is the value of
    [self.tags]; the attributes computed by other modules ([real_message]
    through [get_path], [title] and [location] through the event type,
    the culprit of the group through the relational store) are given by
    their values, the ones that load something as results. *)
Record t := {
  event_id : pyval;
  project_id : pyval;
  platform : pyval;
  real_message : pyval;
  datetime : pyval;
  time_spent : pyval;
  tags : list (atom * atom);
  data : gmap string pyval;
  group_culprit : result pyval;
  title : result pyval;
  location : result pyval;
}.

(** [(k.split('sentry:', 1)[-1], v)]; a tuple is written as a list. *)
Definition as_dict_tag (p : atom * atom) : result pyval :=
  match p.1 with
  | Some k => Ok (VList [VStr (split1_last "sentry:" k); atom_to_py p.2])
  | None => Raise AttributeError
  end.

(** The order of [sorted(six.iteritems(self.data))]: keys are distinct, so
    the items are ordered by key. *)
Definition item_le (a b : string * pyval) : Prop := String.le a.1 b.1.

Global Instance item_le_dec : RelDecision item_le.
Proof. intros a b. unfold item_le. apply _. Defined.

Definition sorted_items (data : gmap string pyval) : list (string * pyval) :=
  merge_sort item_le (map_to_list data).

(** [{v_k: v_v for v_k, v_v in six.iteritems(v) if v_k != 'client_ip'}] *)
Definition without_client_ip (v : pyval) : result pyval :=
  match v with
  | VDict d => Ok (VDict (delete "client_ip" d))
  | _ => Raise AttributeError
  end.

(** The value that the loop over the payload stores under [k]. *)
Definition payload_value (k : string) (v : pyval) : result pyval :=
  if decide (k = "sdk") then without_client_ip v else Ok v.

(** The body of the loop over the payload. *)
Definition add_item (acc : odict) (item : string * pyval) : result odict :=
  let '(k, v) := item in
  if od_contains acc k then Ok acc
  else
    let! v := payload_value k v in
    Ok (od_set acc k v).

Fixpoint add_items (acc : odict) (items : list (string * pyval)) : result odict :=
  match items with
  | [] => Ok acc
  | item :: items' =>
      let! acc := add_item acc item in
      add_items acc items'
  end.

(** [if data.get('culprit') is None: data['culprit'] = self.group.culprit]:
    the group is loaded only when the test succeeds. *)
Definition fill_culprit (self : t) (data : odict) : result odict :=
  if is_none (default VNone (od_get data "culprit"))
  then let! culprit := group_culprit self in Ok (od_set data "culprit" culprit)
  else Ok data.

Definition as_dict (self : t) : result odict :=
  let data := [] in
  let data := od_set data "event_id" (event_id self) in
  let data := od_set data "project" (project_id self) in
  let data := od_set data "release" (atom_to_py (release (tags self))) in
  let data := od_set data "dist" (atom_to_py (dist (tags self))) in
  let data := od_set data "platform" (platform self) in
  let data := od_set data "message" (real_message self) in
  let data := od_set data "datetime" (datetime self) in
  let data := od_set data "time_spent" (time_spent self) in
  let! tag_list := traverse as_dict_tag (tags self) in
  let data := od_set data "tags" (VList tag_list) in
  let! data := add_items data (sorted_items (EventCommon.data self)) in
  let! data := fill_culprit self data in
  let! title := title self in
  let data := od_set data "title" title in
  let! location := location self in
  let data := od_set data "location" location in
  Ok data.

(** The first nine assignments of [as_dict], given the tag list. *)
Definition as_dict_first (self : t) (tag_list : list pyval) : odict :=
  [ ("event_id", event_id self); ("project", project_id self);
    ("release", atom_to_py (release (tags self)));
    ("dist", atom_to_py (dist (tags self)));
    ("platform", platform self); ("message", real_message self);
    ("datetime", datetime self); ("time_spent", time_spent self);
    ("tags", VList tag_list) ].

(** The keys that [as_dict] sets before it looks at the payload. *)
Definition first_class : list string :=
  [ "event_id"; "project"; "release"; "dist"; "platform"; "message";
    "datetime"; "time_spent"; "tags" ].

(** The same event with another answer of the store for its group. *)
Definition with_group_culprit (g : result pyval) (self : t) : t := {|
  event_id := event_id self; project_id := project_id self;
  platform := platform self; real_message := real_message self;
  datetime := datetime self; time_spent := time_spent self;
  tags := tags self; data := data self;
  group_culprit := g;
  title := title self; location := location self;
|}.

(** An event with a release tag and a payload that carries an sdk entry
    with a client ip, a platform of its own and no culprit. *)
Definition example : t := {|
  event_id := VStr "abc"; project_id := VInt 1; platform := VStr "python";
  real_message := VStr "boom"; datetime := VInt 10; time_spent := VNone;
  tags := [(Some "level", Some "error"); (Some "sentry:release", Some "2.0")];
  data := {[ "sdk" := VDict {[ "name" := VStr "raven"; "client_ip" := VStr "10.0.0.1" ]};
             "platform" := VStr "other";
             "extra" := VDict ∅ ]};
  group_culprit := Ok (VStr "views.py");
  title := Ok (VStr "Boom");
  location := Ok VNone;
|}.

End EventCommon.

(** ** SnubaEvent, continued *)

(** [len(v)] *)
Definition py_len (v : pyval) : result nat :=
  match v with
  | VList l => Ok (length l)
  | VStr s => Ok (String.length s)
  | VDict d => Ok (size d)
  | VNone | VBool _ | VInt _ => Raise TypeError
  end.

(** [d[name]] on a dictionary with string keys. *)
Definition dict_item (d : gmap string pyval) (name : string) : result pyval :=
  match d !! name with
  | Some v => Ok v
  | None => Raise KeyError
  end.

Section snuba.
Context `{Externals}.

(** [SnubaEvent(row)]: the row has to be a mapping for [row.keys()]. *)
Definition SnubaEvent_new (row : pyval) : result SnubaEvent :=
  match row with
  | VDict snuba_values => SnubaEvent_init snuba_values
  | _ => Raise AttributeError
  end.

(** [SnubaEvent.get_event], from the answer of [snuba.raw_query] on. *)
Definition SnubaEvent_get_event (answer : gmap string pyval)
    : result (option SnubaEvent) :=
  if bool_decide ("error" ∈ dom answer) then Ok None
  else
    let! rows := dict_item answer "data" in
    let! n := py_len rows in
    if Nat.eqb n 1 then
      let! row := py_index0 rows in
      let! e := SnubaEvent_new row in
      Ok (Some e)
    else Ok None.

End snuba.

(** [SnubaEvent.get_event_type] *)
Definition SnubaEvent_get_event_type (e : SnubaEvent) : pyval :=
  default (VStr "default") (snuba_values e !! "type").

(** [SnubaEvent.ip_address], [title], [culprit], [location] *)
Definition SnubaEvent_ip_address (e : SnubaEvent) : result pyval :=
  dict_item (snuba_values e) "ip_address".

Definition SnubaEvent_title (e : SnubaEvent) : result pyval :=
  dict_item (snuba_values e) "title".

Definition SnubaEvent_culprit (e : SnubaEvent) : result pyval :=
  dict_item (snuba_values e) "culprit".

Definition SnubaEvent_location (e : SnubaEvent) : result pyval :=
  dict_item (snuba_values e) "location".

(** [SnubaEvent.time_spent] *)
Definition SnubaEvent_time_spent (e : SnubaEvent) : pyval := VNone.

(** [SnubaEvent.get_interface].  [User_to_python] is
    [sentry.interfaces.user.User.to_python], [interfaces] the value of the
    memoized [self.interfaces]. *)
Definition SnubaEvent_get_interface
    (User_to_python : gmap string pyval → result pyval)
    (interfaces : gmap string pyval) (e : SnubaEvent) (name : string)
    : result pyval :=
  if decide (name = "user") then
    let! user_id := getattr (snuba_values e) "user_id" in
    let! email := getattr (snuba_values e) "email" in
    let! username := getattr (snuba_values e) "username" in
    let! ip_address := SnubaEvent_ip_address e in
    let snuba_user : gmap string pyval :=
      {[ "id" := user_id; "email" := email; "username" := username;
         "ip_address" := ip_address ]} in
    if existsb (λ v, negb (is_none v)) (map_to_list snuba_user).*2
    then User_to_python snuba_user
    else Ok (default VNone (interfaces !! name))
  else Ok (default VNone (interfaces !! name)).

(** A row that knows the user only by an email address. *)
Definition example_user_row : gmap string pyval :=
  <["email" := VStr "a@b.c"]> (list_to_map ((λ c, (c, VNone)) <$> selected_columns)).

(** ** The subject template data (EventSubjectTemplateData) *)

Definition tag_aliases : gmap string string :=
  {[ "release" := "sentry:release"; "dist" := "sentry:dist";
     "user" := "sentry:user" ]}.

(** What [__getitem__] reads off [self.event]: its tags, and the values of
    [project.get_full_name()], [project.slug], [group.qualified_short_id],
    [organization.slug] and [title]. *)
Record SubjectEvent := {
  subject_tags : list (atom * atom);
  subject_project : result pyval;
  subject_projectID : result pyval;
  subject_shortID : result pyval;
  subject_orgID : result pyval;
  subject_title : result pyval;
}.

(** [EventSubjectTemplateData.__getitem__] *)
Definition EventSubjectTemplateData_getitem (event : SubjectEvent) (name : string)
    : result pyval :=
  if startswith "tag:" name then
    let name := string_drop 4 name in
    let value := get_tag (subject_tags event) (default name (tag_aliases !! name)) in
    match value with
    | None => Raise KeyError
    | Some v => Ok (VStr v)
    end
  else if decide (name = "project") then subject_project event
  else if decide (name = "projectID") then subject_projectID event
  else if decide (name = "shortID") then subject_shortID event
  else if decide (name = "orgID") then subject_orgID event
  else if decide (name = "title") then subject_title event
  else Raise KeyError.

(** An event with a release tag. *)
Definition example_subject : SubjectEvent := {|
  subject_tags := [(Some "level", Some "error"); (Some "sentry:release", Some "2.0")];
  subject_project := Ok (VStr "Backend");
  subject_projectID := Ok (VStr "backend");
  subject_shortID := Ok (VStr "BACKEND-1");
  subject_orgID := Ok (VStr "acme");
  subject_title := Ok (VStr "Boom");
|}.

(** ** Saved searches of an organization (OrganizationSearchesEndpoint.get) *)

Module SavedSearch.

(** The columns of a saved search that the endpoint looks at. *)
Record t := {
  id : Z;
  owner : option Z;
  organization : option Z;
  project : option Z;
  is_global : bool;
  type : Z;
  name : string;
  query : string;
}.

Section get.
(** [SavedSearchType.ISSUE.value], the SQL function [UPPER] and the order
    of the store on strings. *)
Variable ISSUE : Z.
Variable UPPER : string → string.
Variable collate_le : string → string → Prop.

(** [Q(Q(owner=request.user) | Q(owner__isnull=True),
       organization=organization) | Q(is_global=True)], with
    [type=SavedSearchType.ISSUE.value]. *)
Definition org_level_filter (user organization : Z) (s : t) : Prop :=
  (((owner s = Some user ∨ owner s = None) ∧ SavedSearch.organization s = Some organization)
   ∨ is_global s = true)
  ∧ type s = ISSUE.

Global Instance org_level_filter_dec user organization s :
  Decision (org_level_filter user organization s).
Proof. unfold org_level_filter. apply _. Defined.

(** [has_owner]: [owner_id is not null]. *)
Definition has_owner (s : t) : bool :=
  match owner s with Some _ => true | None => false end.

(** [order_by=['-has_owner', 'name__upper']] *)
Definition org_level_le (a b : t) : Prop :=
  match has_owner a, has_owner b with
  | true, false => True
  | false, true => False
  | _, _ => collate_le (UPPER (name a)) (UPPER (name b))
  end.

(** The answers the store may give to the query: the matching rows in an
    order that agrees with [order_by]. *)
Definition org_level_query (user organization : Z) (table saved_searches : list t)
    : Prop :=
  saved_searches ≡ₚ filter (org_level_filter user organization) table ∧
  StronglySorted org_level_le saved_searches.

End get.

(** The loop over [saved_searches[1:]]. *)
Definition append_unless_pinned (pinned_search : option t) (results : list t)
    (saved_search : t) : list t :=
  match pinned_search with
  | Some pinned =>
      if decide (query saved_search = query pinned) then results
      else results ++ [saved_search]
  | None => results ++ [saved_search]
  end.

(** The searches that the loop appends. *)
Definition is_kept (pinned_search : option t) (saved_search : t) : Prop :=
  match pinned_search with
  | Some pinned => query saved_search ≠ query pinned
  | None => True
  end.

Global Instance is_kept_dec pinned_search saved_search :
  Decision (is_kept pinned_search saved_search).
Proof. destruct pinned_search; apply _. Defined.

(** The [use_org_level] branch after the query. *)
Definition org_level_results (saved_searches : list t) : list t :=
  match saved_searches with
  | [] => []
  | first :: rest =>
      let results := [first] in
      let pinned_search :=
        match owner first with Some _ => Some first | None => None end in
      foldl (append_unless_pinned pinned_search) results rest
  end.

(** [get]: [GET] holds the query parameters; [saved_searches] and
    [project_searches] are the answers of the store to the query of either
    branch. *)
Definition get (GET : gmap string string) (saved_searches project_searches : list t)
    : list t :=
  if decide (GET !! "use_org_level" = Some "1")
  then org_level_results saved_searches
  else project_searches.

(** A search of the given owner. *)
Definition example (i : Z) (o : option Z) (n q : string) : t := {|
  id := i; owner := o; organization := Some 1; project := None;
  is_global := false; type := 0; name := n; query := q;
|}.

End SavedSearch.

(** ** Recent searches (OrganizationRecentSearchesEndpoint.get) *)

Module RecentSearch.

(** [sentry.models.recentsearch.RecentSearch]; the two timestamps are in
    seconds. *)
Record t := {
  organization : Z;
  user : Z;
  type : Z;
  query : string;
  last_seen : Z;
  date_added : Z;
}.

(** A query parameter as [request.GET.get(name, default)] returns it: the
    string of the request, or the integer default. *)
Inductive param : Type :=
  | PStr (s : string)
  | PInt (z : Z).

Definition GET_get (GET : gmap string string) (name : string) (default : Z) : param :=
  match GET !! name with
  | Some s => PStr s
  | None => PInt default
  end.

Section get.
(** [int(s)] on a string, and the constructor of the enumeration
    [SearchType], which raises ValueError on a number that is no member. *)
Variable int_of_string : string → result Z.
Variable SearchType : Z → result Z.

(** [int(x)] *)
Definition int (x : param) : result Z :=
  match x with
  | PStr s => int_of_string s
  | PInt z => Ok z
  end.

(** The first two statements of [get]. *)
Definition get_params (GET : gmap string string) : result (Z * Z) :=
  let! type_number := int (GET_get GET "type" 0) in
  let! search_type := SearchType type_number in
  let! limit := int (GET_get GET "limit" 3) in
  Ok (search_type, limit).

End get.

(** [filter(organization=..., user=..., type=...)] *)
Definition recent_filter (organization user search_type : Z) (r : t) : Prop :=
  RecentSearch.organization r = organization ∧ RecentSearch.user r = user
  ∧ type r = search_type.

(** [order_by('-last_seen')] *)
Definition recent_le (a b : t) : Prop := last_seen b ≤ last_seen a.

Global Instance recent_filter_dec organization user search_type r :
  Decision (recent_filter organization user search_type r).
Proof. unfold recent_filter. apply _. Defined.

Global Instance recent_le_dec : RelDecision recent_le.
Proof. intros a b. unfold recent_le. apply _. Defined.

(** [...order_by('-last_seen')[:limit]]: a slice with a negative bound is
    refused by the query set; otherwise the answer is the first [limit]
    matching rows in an order that agrees with [order_by]. *)
Definition recent_query (organization user search_type limit : Z)
    (table : list t) (answer : result (list t)) : Prop :=
  if decide (limit < 0) then answer = Raise AssertionError
  else ∃ rows,
         rows ≡ₚ filter (recent_filter organization user search_type) table ∧
         StronglySorted recent_le rows ∧
         answer = Ok (take (Z.to_nat limit) rows).

(** A search of user 1 in organization 1. *)
Definition example (q : string) (seen : Z) : t := {|
  organization := 1; user := 1; type := 0; query := q;
  last_seen := seen; date_added := seen;
|}.

End RecentSearch.
(** * Proofs *)

Section tag_order.

Global Instance atom_le_refl : Reflexive atom_le.
Proof. intros [s|]; simpl; done. Qed.

Global Instance atom_le_trans : Transitive atom_le.
Proof.
  intros [a|] [b|] [c|]; simpl; try done.
  apply (transitivity (R := String.le)).
Qed.

Global Instance atom_le_antisym : AntiSymm (=) atom_le.
Proof.
  intros [a|] [b|]; simpl; try done.
  intros H1 H2. f_equal. by apply (anti_symm String.le).
Qed.

Global Instance atom_le_total : Total atom_le.
Proof.
  intros [a|] [b|]; simpl; auto.
  apply (total String.le).
Qed.

Global Instance tag_le_total : Total tag_le.
Proof.
  intros p q. unfold tag_le.
  destruct (decide (p.1 = q.1)) as [e|n], (decide (q.1 = p.1)) as [e'|n'];
    try congruence; apply (total atom_le).
Qed.

Global Instance tag_le_trans : Transitive tag_le.
Proof.
  intros p q r. unfold tag_le.
  destruct (decide (p.1 = q.1)) as [e1|n1], (decide (q.1 = r.1)) as [e2|n2],
           (decide (p.1 = r.1)) as [e3|n3]; intros H1 H2;
    try congruence; try (by etrans).
  exfalso. apply n1. apply (anti_symm atom_le); [done|]. by rewrite e3.
Qed.

Lemma sorted_tags_sorted l : StronglySorted tag_le (sorted_tags l).
Proof. apply StronglySorted_merge_sort; apply _. Qed.

Lemma sorted_tags_perm l : sorted_tags l ≡ₚ l.
Proof. apply merge_sort_Permutation. Qed.

End tag_order.

Lemma is_pair_unpack2 item : is_pair item ↔ ∃ p, unpack2 item = Ok p.
Proof.
  destruct item as [[|t [|v [|w items]]]|]; cbn; split; try done;
    try (by intros [? ?]); eauto.
Qed.


Lemma traverse_unpack2_Raise pairs bad rest e :
  Forall is_pair pairs → unpack2 bad = Raise e →
  traverse unpack2 (pairs ++ bad :: rest) = Raise e.
Proof.
  intros Hpairs Hbad. induction Hpairs as [|item pairs Hitem _ IH]; cbn.
  - by rewrite Hbad.
  - apply is_pair_unpack2 in Hitem as [p ->]. cbn. by rewrite IH.
Qed.

Lemma unpack2_exn item e :
  unpack2 item = Raise e →
  (e = ValueError ∧ item ≠ NotIterable) ∨ (e = TypeError ∧ item = NotIterable).
Proof.
  destruct item as [[|t [|v [|w items]]]|]; cbn; intros [= <-]; auto.
Qed.

Lemma is_not_none_spec a : is_not_none a = true ↔ a ≠ None.
Proof. destruct a; simpl; naive_solver. Qed.

(** Whatever [EventCommon.tags] returns is sorted and free of [None]. *)
Lemma EventCommon_tags_ok raw l :
  EventCommon_tags raw = Ok l → tags_ok l.
Proof.
  unfold EventCommon_tags.
  destruct (bind _ _) as [pairs|e] eqn:E.
  - intros [= <-]. split; [apply sorted_tags_sorted|].
    rewrite sorted_tags_perm. apply Forall_forall. intros p Hp.
    apply list_elem_of_filter in Hp as [Hp _].
    apply Is_true_true, andb_true_iff in Hp as [H1 H2].
    split; by apply is_not_none_spec.
  - destruct e; try done. intros [= <-]. split; constructor.
Qed.


Lemma SnubaEvent_tags_sorted keys values :
  StronglySorted tag_le (SnubaEvent_tags keys values).
Proof.
  unfold SnubaEvent_tags. destruct keys, values; try constructor.
  case_match; [apply sorted_tags_sorted | constructor].
Qed.

Section event_facts.
Context `{Externals}.

Lemma getattr_dom (values : gmap string pyval) name :
  name ∈ dom values → ∃ v, values !! name = Some v ∧ getattr values name = Ok v.
Proof.
  intros [v Hv]%elem_of_dom. exists v. unfold getattr. by rewrite Hv.
Qed.

Lemma SnubaEvent_init_Ok (row : gmap string pyval) e :
  SnubaEvent_init row = Ok e →
  dom row = list_to_set selected_columns ∧
  snuba_values e = row ∧
  ∃ p i, row !! "project_id" = Some p ∧ row !! "event_id" = Some i ∧
         node_id (snuba_data e) = generate_node_id p i.
Proof.
  unfold SnubaEvent_init. case_decide as Hdom; [|done].
  destruct (getattr_dom row "project_id") as (p & Hp & ->);
    [rewrite Hdom; set_solver|].
  destruct (getattr_dom row "event_id") as (i & Hi & ->);
    [rewrite Hdom; set_solver|].
  simpl. intros [= <-]. simpl. eauto 10.
Qed.

Lemma should_skip_no_event_id (data : gmap string pyval) :
  truthy (default VNone (data !! "event_id")) = false →
  _should_skip_to_python data = Ok false.
Proof. unfold _should_skip_to_python. by intros ->. Qed.

Lemma should_skip_rate_zero (data : gmap string pyval) :
  (sample_rate == 0)%Q → _should_skip_to_python data = Ok false.
Proof.
  intros Hz%Qeq_bool_iff. unfold _should_skip_to_python.
  rewrite Hz. by destruct (truthy _).
Qed.

End event_facts.





(** C2: stored hashes are returned as they are; without stored hashes the
    result is the list of the variants' hashes, in the resolver's order,
    with [None] and empty hashes dropped. *)
Theorem get_hashes_stored_or_computed `{Externals} (data : gmap string pyval) :
  (∀ l, data !! "hashes" = Some (VList l) → get_hashes data = VList l) ∧
  (data !! "hashes" = None ∨ data !! "hashes" = Some VNone →
   ∃ hs, get_hashes data = VList hs ∧
         hs = filter (λ h, truthy h) ((get_grouping_variants data).*2) ∧
         hs `sublist_of` (get_grouping_variants data).*2 ∧
         Forall (λ h, h ≠ VNone ∧ h ≠ VStr "") hs ∧
         ∀ s, s ≠ "" → VStr s ∈ (get_grouping_variants data).*2 → VStr s ∈ hs).
Proof.
  split.
  - intros l Hl. unfold get_hashes. by rewrite Hl.
  - intros Hno. eexists. split; [|split; [reflexivity|split; [|split]]].
    + unfold get_hashes. by destruct Hno as [-> | ->].
    + apply sublist_filter.
    + apply Forall_forall. intros h [Hh _]%list_elem_of_filter.
      split; intros ->; done.
    + intros s Hs Hin. apply list_elem_of_filter. split; [|done].
      by destruct s.
Qed.

Lemma get_hashes_stored_or_computed_witness :
  get_hashes (H := example_externals 1) {["hashes" := VList [VStr "h"]]} = VList [VStr "h"] ∧
  ∃ hs, get_hashes (H := example_externals 1)
          {["variants" := VList [VStr "a"; VNone; VStr ""; VStr "b"]]} = VList hs ∧
        hs = [VStr "a"; VStr "b"].
Proof.
  split.
  - apply (proj1 (get_hashes_stored_or_computed (H := example_externals 1)
                    {["hashes" := VList [VStr "h"]]})).
    reflexivity.
  - destruct (proj2 (get_hashes_stored_or_computed (H := example_externals 1)
                       {["variants" := VList [VStr "a"; VNone; VStr ""; VStr "b"]]}))
      as (hs & Hhs & Heq & _).
    + left. reflexivity.
    + exists hs. split; [exact Hhs|]. rewrite Heq. reflexivity.
Defined.

(** C3: a row that lacks one of the expected columns makes construction
    fail with an assertion error; a row whose key set is exactly the
    expected columns is accepted and becomes the instance dictionary. *)
Theorem SnubaEvent_init_column_check `{Externals} (row : gmap string pyval) :
  (∀ c, c ∈ selected_columns → row !! c = None →
        SnubaEvent_init row = Raise AssertionError) ∧
  (dom row = list_to_set selected_columns →
   ∃ e, SnubaEvent_init row = Ok e ∧ snuba_values e = row).
Proof.
  split.
  - intros c Hc Hrow. unfold SnubaEvent_init. case_decide as Hdom; [|done].
    exfalso. apply (not_elem_of_dom row c) in Hrow. apply Hrow.
    rewrite Hdom. by apply elem_of_list_to_set.
  - intros Hdom. unfold SnubaEvent_init. rewrite decide_True by done.
    destruct (getattr_dom row "project_id") as (p & Hp & ->);
      [rewrite Hdom; set_solver|].
    destruct (getattr_dom row "event_id") as (i & Hi & ->);
      [rewrite Hdom; set_solver|].
    simpl. eauto.
Qed.

Lemma SnubaEvent_init_column_check_witness :
  SnubaEvent_init (H := example_externals 1) (delete "email" example_row)
    = Raise AssertionError ∧
  ∃ e, SnubaEvent_init (H := example_externals 1) example_row = Ok e ∧
       snuba_values e = example_row.
Proof.
  split.
  - apply (proj1 (SnubaEvent_init_column_check (H := example_externals 1)
                    (delete "email" example_row)) "email").
    + vm_compute. repeat (first [left | right; left | right]).
    + reflexivity.
  - apply (proj2 (SnubaEvent_init_column_check (H := example_externals 1) example_row)).
    vm_compute. reflexivity.
Defined.

(** C6: an analytical-backed event is read-only: [save] always raises,
    [next_event] and [prev_event] are always [None], and [id] is the
    [event_id] of the row the event was built from. *)
Theorem SnubaEvent_read_only `{Externals} (e : SnubaEvent) :
  SnubaEvent_save e = Raise NotImplementedError ∧
  SnubaEvent_next_event e = None ∧
  SnubaEvent_prev_event e = None ∧
  (∀ row, SnubaEvent_init row = Ok e →
          ∃ v, row !! "event_id" = Some v ∧ SnubaEvent_id e = Ok v).
Proof.
  repeat split.
  intros row (Hdom & Hvals & p & i & Hp & Hi & _)%SnubaEvent_init_Ok.
  exists i. split; [done|]. unfold SnubaEvent_id, getattr. by rewrite Hvals, Hi.
Qed.

Lemma SnubaEvent_read_only_witness :
  ∃ e, SnubaEvent_init (H := example_externals 1) example_row = Ok e ∧
       SnubaEvent_id e = Ok (VStr "event_id").
Proof.
  eexists. split; [vm_compute; reflexivity|].
  match goal with |- SnubaEvent_id ?e = _ =>
    destruct (proj2 (proj2 (proj2 (SnubaEvent_read_only (H := example_externals 1) e)))
                example_row) as (v & Hv & Hid)
  end.
  - vm_compute. reflexivity.
  - rewrite Hid. f_equal. vm_compute in Hv. congruence.
Defined.

(** C7: the primary hash is the first element of [get_hashes()]; with an
    empty hash list the index error of [[0]] is what the caller gets. *)
Theorem get_primary_hash_first_or_IndexError `{Externals} (data : gmap string pyval) :
  (get_hashes data = VList [] → get_primary_hash data = Raise IndexError) ∧
  (∀ h hs, get_hashes data = VList (h :: hs) → get_primary_hash data = Ok h).
Proof.
  unfold get_primary_hash. split.
  - by intros ->.
  - by intros h hs ->.
Qed.

Lemma get_primary_hash_first_or_IndexError_witness :
  get_primary_hash (H := example_externals 1) {["hashes" := VList []]} = Raise IndexError ∧
  get_primary_hash (H := example_externals 1)
    {["variants" := VList [VNone; VStr "a"; VStr "b"]]} = Ok (VStr "a").
Proof.
  split.
  - apply (proj1 (get_primary_hash_first_or_IndexError (H := example_externals 1)
                    {["hashes" := VList []]})).
    reflexivity.
  - apply (proj2 (get_primary_hash_first_or_IndexError (H := example_externals 1)
                    {["variants" := VList [VNone; VStr "a"; VStr "b"]]})
             (VStr "a") [VStr "b"]).
    reflexivity.
Defined.







(** C10: a payload without an event id (missing, [None] or empty), and any
    payload while the sample rate option is 0, is not renormalized: the
    decision function returns [False], [EventDict] keeps the data it was
    given without calling the normalizer, and [get_interfaces] asks for the
    interfaces with [rust_renormalized=False]. *)
Theorem no_renormalization_without_event_id_or_rate `{Externals}
    (data : gmap string pyval) :
  (data !! "event_id" = None ∨
   (∃ v, data !! "event_id" = Some v ∧ truthy v = false) ∨
   (sample_rate == 0)%Q) →
  _should_skip_to_python data = Ok false ∧
  EventDict_init data = Ok (data, [MetricsIncr false; ScopeSetTag false]) ∧
  get_interfaces data = Ok (interfaces_get_interfaces data false).
Proof.
  intros Hcase.
  assert (_should_skip_to_python data = Ok false) as Hskip.
  { destruct Hcase as [Hno | [(v & Hv & Hf) | Hz]].
    - apply should_skip_no_event_id. by rewrite Hno.
    - apply should_skip_no_event_id. by rewrite Hv.
    - by apply should_skip_rate_zero. }
  split; [done|]. unfold EventDict_init, get_interfaces. by rewrite Hskip.
Qed.

Lemma no_renormalization_without_event_id_or_rate_witness :
  _should_skip_to_python (H := example_externals (1 # 2)) {["event_id" := VStr ""]} = Ok false ∧
  _should_skip_to_python (H := example_externals 0) {["event_id" := VStr "abcdef"]} = Ok false.
Proof.
  split.
  - apply (no_renormalization_without_event_id_or_rate (H := example_externals (1 # 2))).
    right; left. exists (VStr ""). split; reflexivity.
  - apply (no_renormalization_without_event_id_or_rate (H := example_externals 0)).
    right; right. reflexivity.
Defined.

(** ** The external-issue endpoint *)

Ltac post_cases env DATA :=
  unfold post;
  destruct (features_has env) as [[|]|e_feat] eqn:Hfeat;
  [ case_bool_decide as Hsub; cbn [negb];
    [ destruct (Group_objects_get env (default VNone (DATA !! "groupId")))
        as [g0|e0] eqn:Hgroup;
      [ destruct (delete "groupId" DATA !! "action") as [a0|] eqn:Haction;
        [ destruct (IssueLinkCreator_run env g0 a0
                      (delete "uri" (delete "action" (delete "groupId" DATA)))
                      (default VNone (delete "action" (delete "groupId" DATA) !! "uri")))
            as [issue|e1] eqn:Hrun;
          [ destruct (serialize env issue) as [serialized|e2] eqn:Hser
          | destruct (is_Exception e1) eqn:Hexc ]
        | ]
      | destruct e0 ]
    | ]
  | | ]; cbn [fst snd].

(** After the field check the lookup [data['action']] finds its key. *)
Lemma post_action_present (DATA : gmap string pyval) :
  list_to_set required_fields ⊆ dom DATA → delete "groupId" DATA !! "action" ≠ None.
Proof.
  intros Hsub Haction. rewrite lookup_delete_ne in Haction by done.
  apply (not_elem_of_dom DATA "action") in Haction. apply Haction, Hsub.
  unfold required_fields. set_solver.
Qed.

(** A request body that lacks [groupId], [action] or [uri] never reaches the
    issue-link creator; the answer is status 400 when the sentry-apps
    feature is on for the organization and status 404 when it is off, the
    feature check coming first (and an exception of the feature check is
    the handler's). *)
Theorem post_missing_field_no_creator (env : Endpoint) (DATA : gmap string pyval) f :
  f ∈ required_fields → DATA !! f = None →
  (post env DATA).1
    = match features_has env with
      | Ok b => Ok {| status := if b then 400 else 404; body := VNone |}
      | Raise e => Raise e
      end ∧
  Forall (λ c, ¬ is_creator_call c) (post env DATA).2.
Proof.
  intros Hf Hmiss.
  assert (¬ list_to_set required_fields ⊆ dom DATA) as Hns.
  { intros Hsub. apply (not_elem_of_dom DATA f) in Hmiss. apply Hmiss, Hsub.
    by apply elem_of_list_to_set. }
  unfold post. rewrite (bool_decide_false _ Hns).
  destruct (features_has env) as [[|]|e]; cbn [negb fst snd].
  all: split; [done|]; repeat constructor; by intros [].
Qed.

Lemma post_missing_field_no_creator_witness :
  (post (example_endpoint true) DATA_missing_uri).1
    = Ok {| status := 400; body := VNone |} ∧
  Forall (λ c, ¬ is_creator_call c) (post (example_endpoint true) DATA_missing_uri).2.
Proof.
  apply (post_missing_field_no_creator (example_endpoint true) DATA_missing_uri "uri").
  - vm_compute. repeat (first [left | right; left | right]).
  - reflexivity.
Defined.

(** While the feature is off the incomplete body is answered with status
    404, not 400. *)
Lemma post_missing_field_feature_off :
  DATA_missing_uri !! "uri" = None ∧
  (post (example_endpoint false) DATA_missing_uri).1
    = Ok {| status := 404; body := VNone |} ∧
  (post (example_endpoint false) DATA_missing_uri).1
    ≠ Ok {| status := 400; body := VNone |}.
Proof. split; [reflexivity|]. split; [reflexivity|]. discriminate. Qed.

(** The handler talks to its collaborators in a fixed order and stops at the
    first that settles the answer: the feature check, then the group
    lookup, then one run of the issue-link creator on the group that the
    lookup returned. *)
Theorem post_calls_in_order (env : Endpoint) (DATA : gmap string pyval) :
  let group_id := default VNone (DATA !! "groupId") in
  (post env DATA).2 = [FeaturesHas] ∨
  (post env DATA).2 = [FeaturesHas; GroupObjectsGet group_id] ∨
  ∃ group action fields uri,
    features_has env = Ok true ∧
    Group_objects_get env group_id = Ok group ∧
    (post env DATA).2
      = [FeaturesHas; GroupObjectsGet group_id;
         IssueLinkCreatorRun group action fields uri].
Proof.
  intros group_id. subst group_id.
  post_cases env DATA; try (by left); try (by right; left).
  all: right; right; eauto 10.
Qed.

(** When the creator runs, it runs on what the body said: the action and
    the uri are the body's, and the fields are the body without [groupId],
    [action] and [uri], every other key kept with its value. *)
Theorem post_creator_arguments (env : Endpoint) (DATA : gmap string pyval)
    group action fields uri :
  IssueLinkCreatorRun group action fields uri ∈ (post env DATA).2 →
  DATA !! "action" = Some action ∧
  DATA !! "uri" = Some uri ∧
  (∃ group_id, DATA !! "groupId" = Some group_id ∧
               Group_objects_get env group_id = Ok group) ∧
  ∀ k, fields !! k = if decide (k ∈ required_fields) then None else DATA !! k.
Proof.
  post_cases env DATA; intros Hin;
    repeat (apply elem_of_cons in Hin as [Hin|Hin]; [discriminate Hin|]);
    try (by apply elem_of_nil in Hin).
  all: apply elem_of_cons in Hin as [Hin|Hin]; [|by apply elem_of_nil in Hin].
  all: injection Hin as -> -> -> ->.
  all: assert ("groupId" ∈ dom DATA) as [gid Hgid]%elem_of_dom
         by (apply Hsub; set_solver).
  all: assert ("uri" ∈ dom DATA) as [u Hu]%elem_of_dom
         by (apply Hsub; set_solver).
  all: rewrite lookup_delete_ne in Haction by done.
  all: rewrite Hgid in Hgroup; cbn in Hgroup.
  all: rewrite !lookup_delete_ne by done; rewrite Hu; cbn.
  all: split; [done|]; split; [done|]; split; [eauto|].
  all: intros k; case_decide as Hk.
  all: unfold required_fields in Hk; set_unfold.
  all: try (destruct_or!; subst k; by simplify_map_eq).
  all: rewrite !lookup_delete_ne; [done|..]; intros <-; apply Hk; auto.
Qed.

Lemma post_creator_arguments_witness :
  DATA_complete !! "action" = Some (VStr "create") ∧
  DATA_complete !! "uri" = Some (VStr "/link") ∧
  (∃ group_id, DATA_complete !! "groupId" = Some group_id ∧
               Group_objects_get (example_endpoint true) group_id = Ok (VInt 7)) ∧
  ∀ k, ({["title" := VStr "crash"]} : gmap string pyval) !! k
       = if decide (k ∈ required_fields) then None else DATA_complete !! k.
Proof.
  apply (post_creator_arguments (example_endpoint true) DATA_complete
           (VInt 7) (VStr "create") {["title" := VStr "crash"]} (VStr "/link")).
  vm_compute. do 2 right. left.
Defined.

(** The answers the handler gives: 200 with the serialized issue exactly
    when the creator returned one, 400 with the error body exactly when the
    creator raised, 400 with an empty body exactly when a required field is
    missing, and 404 when the feature is off or the group is not found. *)
Theorem post_response_cases (env : Endpoint) (DATA : gmap string pyval) r :
  (post env DATA).1 = Ok r →
  (status r = 200 ∧
     ∃ group action fields uri issue,
       IssueLinkCreatorRun group action fields uri ∈ (post env DATA).2 ∧
       IssueLinkCreator_run env group action fields uri = Ok issue ∧
       serialize env issue = Ok (body r)) ∨
  (status r = 400 ∧
     body r = VDict {["error" := VStr "Error communicating with Sentry App service"]} ∧
     ∃ group action fields uri e,
       IssueLinkCreatorRun group action fields uri ∈ (post env DATA).2 ∧
       IssueLinkCreator_run env group action fields uri = Raise e ∧
       is_Exception e = true) ∨
  (status r = 400 ∧ body r = VNone ∧ features_has env = Ok true ∧
     ∃ f, f ∈ required_fields ∧ DATA !! f = None) ∨
  (status r = 404 ∧ body r = VNone ∧
     (features_has env = Ok false ∨
      Group_objects_get env (default VNone (DATA !! "groupId")) = Raise DoesNotExist)).
Proof.
  post_cases env DATA; intros Hr; simplify_eq; cbn [status body].
  - left. split; [done|]. do 5 eexists. split; [|split; [exact Hrun|done]].
    set_solver.
  - right; left. split; [done|]. split; [done|]. do 5 eexists.
    split; [|split; [exact Hrun|done]]. set_solver.
  - right; right; right. auto.
  - right; right; left. split; [done|]. split; [done|]. split; [done|].
    unfold required_fields in Hsub.
    destruct (DATA !! "groupId") eqn:E1; [|exists "groupId"; set_solver].
    destruct (DATA !! "action") eqn:E2; [|exists "action"; set_solver].
    destruct (DATA !! "uri") eqn:E3; [|exists "uri"; set_solver].
    exfalso. apply Hsub. intros k Hk. apply elem_of_dom. set_unfold.
    destruct_or!; subst k; eauto.
  - right; right; right. auto.
Qed.

Lemma post_response_cases_witness :
  let env := failing_endpoint KeyError in
  let r := {| status := 400;
              body := VDict {["error" :=
                        VStr "Error communicating with Sentry App service"]} |} in
  (status r = 200 ∧
     ∃ group action fields uri issue,
       IssueLinkCreatorRun group action fields uri ∈ (post env DATA_complete).2 ∧
       IssueLinkCreator_run env group action fields uri = Ok issue ∧
       serialize env issue = Ok (body r)) ∨
  (status r = 400 ∧
     body r = VDict {["error" := VStr "Error communicating with Sentry App service"]} ∧
     ∃ group action fields uri e,
       IssueLinkCreatorRun group action fields uri ∈ (post env DATA_complete).2 ∧
       IssueLinkCreator_run env group action fields uri = Raise e ∧
       is_Exception e = true) ∨
  (status r = 400 ∧ body r = VNone ∧ features_has env = Ok true ∧
     ∃ f, f ∈ required_fields ∧ DATA_complete !! f = None) ∨
  (status r = 404 ∧ body r = VNone ∧
     (features_has env = Ok false ∨
      Group_objects_get env (default VNone (DATA_complete !! "groupId"))
        = Raise DoesNotExist)).
Proof.
  intros env r.
  apply (post_response_cases env DATA_complete r).
  reflexivity.
Defined.

(** The exceptions that leave the handler are those of the feature check,
    of the group lookup other than [DoesNotExist], of the creator when it
    is no [Exception] (an [Exception] of the creator becomes the 400
    answer), and of [serialize], which runs after the creator outside of
    any [try]; the lookup of [action] never raises.  Only in the last two
    cases has the creator been called. *)
Theorem post_exceptions (env : Endpoint) (DATA : gmap string pyval) e :
  (post env DATA).1 = Raise e →
  (features_has env = Raise e ∧ (post env DATA).2 = [FeaturesHas]) ∨
  (e ≠ DoesNotExist ∧
   Group_objects_get env (default VNone (DATA !! "groupId")) = Raise e ∧
   Forall (λ c, ¬ is_creator_call c) (post env DATA).2) ∨
  (∃ group action fields uri,
     IssueLinkCreatorRun group action fields uri ∈ (post env DATA).2 ∧
     ((IssueLinkCreator_run env group action fields uri = Raise e ∧
       is_Exception e = false) ∨
      ∃ issue, IssueLinkCreator_run env group action fields uri = Ok issue ∧
               serialize env issue = Raise e)).
Proof.
  post_cases env DATA; intros Hr; simplify_eq.
  all: try (by left).
  all: try (right; left; split; [done|]; split; [done|];
            repeat constructor; by intros []).
  - right; right. do 4 eexists. split; [|right; eauto]. set_solver.
  - right; right. do 4 eexists. split; [|left; eauto]. set_solver.
  - by destruct (post_action_present DATA Hsub).
Qed.

Lemma post_exceptions_witness :
  let env := broken_serializer_endpoint TypeError in
  (features_has env = Raise TypeError ∧ (post env DATA_complete).2 = [FeaturesHas]) ∨
  (TypeError ≠ DoesNotExist ∧
   Group_objects_get env (default VNone (DATA_complete !! "groupId")) = Raise TypeError ∧
   Forall (λ c, ¬ is_creator_call c) (post env DATA_complete).2) ∨
  (∃ group action fields uri,
     IssueLinkCreatorRun group action fields uri ∈ (post env DATA_complete).2 ∧
     ((IssueLinkCreator_run env group action fields uri = Raise TypeError ∧
       is_Exception TypeError = false) ∨
      ∃ issue, IssueLinkCreator_run env group action fields uri = Ok issue ∧
               serialize env issue = Raise TypeError)).
Proof.
  intros env.
  apply (post_exceptions env DATA_complete TypeError).
  reflexivity.
Defined.

(** ** Event.next_event and Event.prev_event *)

Section neighbours.
Import Event.

Lemma key_le_spec a b :
  key_le a b = true ↔ a.1 < b.1 ∨ (a.1 = b.1 ∧ a.2 ≤ b.2).
Proof. unfold key_le. destruct a, b; cbn. lia. Qed.

Lemma key_le_total a b : key_le a b = false → key_le b a = true.
Proof.
  intros Hf. apply key_le_spec. destruct (key_le a b) eqn:E; [done|].
  apply not_true_iff_false in E. rewrite key_le_spec in E. lia.
Qed.

Lemma key_le_trans a b c : key_le a b = true → key_le b c = true → key_le a c = true.
Proof. rewrite !key_le_spec. lia. Qed.

Lemma key_ge_total a b : key_ge a b = false → key_ge b a = true.
Proof. unfold key_ge. destruct (key_le a b) eqn:E; [done|]. by apply key_le_total in E as ->. Qed.

Section sorting.
Variable le : Z * Z → Z * Z → bool.
Hypothesis le_total : ∀ a b, le a b = false → le b a = true.
Hypothesis le_trans : ∀ a b c, le a b = true → le b c = true → le a c = true.

Lemma insert_by_perm x l : insert_by le x l ≡ₚ x :: l.
Proof.
  induction l as [|y l IH]; cbn; [done|].
  destruct (le _ _); [done|]. rewrite IH. apply Permutation_swap.
Qed.

Lemma insert_by_sorted x l :
  StronglySorted (by_key le) l → StronglySorted (by_key le) (insert_by le x l).
Proof using le_total le_trans.
  induction 1 as [|y l Hl IH Hy]; cbn; [repeat constructor|].
  destruct (le _ _) eqn:E.
  - constructor; [by constructor|]. constructor; [done|].
    eapply Forall_impl; [exact Hy|]. intros z Hz. unfold by_key in *. eauto.
  - constructor; [done|]. rewrite insert_by_perm. constructor; [|done].
    by apply le_total.
Qed.
End sorting.

Lemma sort_by_key_perm (r : bool) (l : list t) : sort_by_key r l ≡ₚ l.
Proof.
  unfold sort_by_key. induction l as [|x l IH]; cbn; [done|].
  by rewrite insert_by_perm, IH.
Qed.

Lemma sort_by_key_sorted (r : bool) (l : list t) :
  StronglySorted (by_key (if r then key_ge else key_le)) (sort_by_key r l).
Proof.
  unfold sort_by_key. induction l as [|x l IH]; cbn; [constructor|].
  apply insert_by_sorted; [| |done].
  - destruct r; [apply key_ge_total|apply key_le_total].
  - destruct r; unfold key_ge; eauto using key_le_trans.
Qed.

Lemma key_le_refl a : key_le a a = true.
Proof. apply key_le_spec. lia. Qed.

(** The head of the sorted list is an element that is least. *)
Lemma head_sort_by_key (r : bool) (l : list t) h :
  head (sort_by_key r l) = Some h →
  h ∈ l ∧ ∀ e, e ∈ l → by_key (if r then key_ge else key_le) h e.
Proof.
  intros Hh. pose proof (sort_by_key_sorted r l) as Hs.
  pose proof (sort_by_key_perm r l) as Hp.
  destruct (sort_by_key r l) as [|h' s]; [done|]. simplify_eq/=.
  split; [rewrite <- Hp; left|].
  intros e He. rewrite <- Hp in He. apply elem_of_cons in He as [->|He].
  - unfold by_key. destruct r; unfold key_ge; apply key_le_refl.
  - apply StronglySorted_inv in Hs as [_ Hall].
    by eapply Forall_forall in Hall.
Qed.

Lemma head_sort_by_key_None (r : bool) (l : list t) : head (sort_by_key r l) = None ↔ l = [].
Proof.
  pose proof (sort_by_key_perm r l) as Hp. split.
  - destruct (sort_by_key r l); [|done]. intros _. by apply Permutation_nil_l in Hp.
  - by intros ->.
Qed.

Lemma after_spec self e :
  after self e = true ↔
  datetime self < datetime e ∨ (datetime e = datetime self ∧ id self < id e).
Proof. unfold after. lia. Qed.

Lemma before_spec self e :
  before self e = true ↔
  datetime e < datetime self ∨ (datetime e = datetime self ∧ id e < id self).
Proof. unfold before. lia. Qed.


Lemma filter_Forall_id {A} (P : A → Prop) `{∀ x, Decision (P x)} (l : list A) :
  Forall P l → filter P l = l.
Proof.
  induction 1 as [|x l Hx Hl IH]; [done|].
  by rewrite filter_cons, decide_True, IH.
Qed.

(** In a list sorted on a column, an element with at most [n] rows up to
    its value sits among the first [n]. *)
Lemma elem_of_take_sorted (R : t → t → Prop) `{∀ x y, Decision (R x y)}
    `{!Reflexive R} (n : nat) (rows : list t) (s : t) :
  StronglySorted R rows → s ∈ rows →
  (length (filter (λ c, R c s) rows) ≤ n)%nat →
  s ∈ take n rows.
Proof.
  intros Hsorted Hs Hlen.
  rewrite <- (take_drop n rows) in Hs, Hsorted, Hlen.
  apply elem_of_app in Hs as [Hs|Hs]; [done|]. exfalso.
  assert (length (take n rows) = n) as Htake.
  { rewrite length_take. apply list_elem_of_lookup in Hs as [i Hi].
    apply lookup_lt_Some in Hi. rewrite length_drop in Hi. lia. }
  assert (Forall (λ c, R c s) (take n rows)) as Hall.
  { apply Forall_forall. intros c Hc.
    by apply (StronglySorted_app_1_elem_of _ _ _ _ _ Hsorted). }
  rewrite filter_app, length_app, (filter_Forall_id _ _ Hall), Htake in Hlen.
  assert (s ∈ filter (λ c, R c s) (drop n rows)) as Hin.
  { by apply list_elem_of_filter. }
  destruct (filter (λ c, R c s) (drop n rows)); [by apply elem_of_nil in Hin|].
  cbn in Hlen. lia.
Qed.

Global Instance datetime_le_refl : Reflexive datetime_le.
Proof. intros x. unfold datetime_le. lia. Qed.

Global Instance datetime_ge_refl : Reflexive datetime_ge.
Proof. intros x. unfold datetime_ge. lia. Qed.

Lemma next_window_elem self table w e :
  next_window self table w → e ∈ w →
  e ∈ table ∧ datetime self ≤ datetime e ∧ group_id e = group_id self ∧ id e ≠ id self.
Proof.
  intros (rows & Hp & _ & ->) He.
  apply subseteq_take in He. rewrite Hp in He.
  apply list_elem_of_filter in He as [(? & ? & ?) ?]. auto.
Qed.

Lemma prev_window_elem self table w e :
  prev_window self table w → e ∈ w →
  e ∈ table ∧ datetime e ≤ datetime self ∧ group_id e = group_id self ∧ id e ≠ id self.
Proof.
  intros (rows & Hp & _ & ->) He.
  apply subseteq_take in He. rewrite Hp in He.
  apply list_elem_of_filter in He as [(? & ? & ?) ?]. auto.
Qed.

Lemma next_query_window self table : next_window self table (next_query self table).
Proof.
  exists (merge_sort datetime_le (next_candidates self table)).
  split; [apply merge_sort_Permutation|]. split; [|done].
  apply StronglySorted_merge_sort.
  - intros x y z. unfold datetime_le. lia.
  - intros x y. unfold datetime_le. lia.
Qed.

Lemma prev_query_window self table : prev_window self table (prev_query self table).
Proof.
  exists (merge_sort datetime_ge (prev_candidates self table)).
  split; [apply merge_sort_Permutation|]. split; [|done].
  apply StronglySorted_merge_sort.
  - intros x y z. unfold datetime_ge. lia.
  - intros x y. unfold datetime_ge. lia.
Qed.

(** [next_event] on the rows it got: the event returned is one of the rows,
    lies strictly after [self] in the (datetime, id) order, and no row
    strictly after [self] comes before it in that order. *)
Theorem next_event_of_least self events e :
  next_event_of self events = Some e →
  e ∈ events ∧ after self e = true ∧
  ∀ e', e' ∈ events → after self e' = true →
        key_le (EVENT_ORDERING_KEY e) (EVENT_ORDERING_KEY e') = true.
Proof.
  intros [Hin Hmin]%head_sort_by_key.
  apply list_elem_of_filter in Hin as [Hafter Hin].
  apply Is_true_true in Hafter.
  split; [done|]. split; [done|]. intros e' He' Hafter'.
  apply Hmin, list_elem_of_filter. split; [by apply Is_true_true|done].
Qed.

Lemma next_event_of_least_witness :
  example 2 10 ∈ [example 3 11; example 2 10; example 1 10] ∧
  after (example 1 10) (example 2 10) = true ∧
  ∀ e', e' ∈ [example 3 11; example 2 10; example 1 10] →
        after (example 1 10) e' = true →
        key_le (EVENT_ORDERING_KEY (example 2 10)) (EVENT_ORDERING_KEY e') = true.
Proof.
  apply (next_event_of_least (example 1 10)
           [example 3 11; example 2 10; example 1 10] (example 2 10)).
  reflexivity.
Defined.

(** [next_event] answers None exactly when none of the rows lies strictly
    after [self]. *)
Theorem next_event_of_None self events :
  next_event_of self events = None ↔ ∀ e, e ∈ events → after self e = false.
Proof.
  unfold next_event_of. rewrite head_sort_by_key_None. split.
  - intros Hnil e He. destruct (after self e) eqn:E; [|done].
    exfalso. apply (filter_nil_not_elem_of _ _ e Hnil); [|done].
    by apply Is_true_true.
  - intros Hall. induction events as [|x l IH]; [done|].
    rewrite filter_cons. rewrite decide_False.
    + apply IH. intros e He. apply Hall. by right.
    + rewrite (Hall x) by left. by intros [].
Qed.

(** On any window the store may return, [next_event] never answers [self],
    an event of another group or an event that does not lie strictly after
    [self]; and it looks at no more than five rows. *)
Theorem next_event_sound self table w e :
  next_window self table w → next_event_of self w = Some e →
  (length w ≤ 5)%nat ∧ e ∈ table ∧
  group_id e = group_id self ∧ id e ≠ id self ∧
  (datetime self < datetime e ∨ datetime e = datetime self ∧ id self < id e).
Proof.
  intros Hw [Hin _]%head_sort_by_key.
  apply list_elem_of_filter in Hin as [Hafter%Is_true_true Hin].
  destruct (next_window_elem _ _ _ _ Hw Hin) as (? & ? & ? & ?).
  apply after_spec in Hafter. split; [|done].
  destruct Hw as (rows & _ & _ & ->). rewrite length_take. lia.
Qed.

Lemma next_event_sound_witness :
  let self := example 1 10 in
  let table := [example 3 11; example 2 10; example 1 10] in
  let e := example 2 10 in
  (length (next_query self table) ≤ 5)%nat ∧ e ∈ table ∧
  group_id e = group_id self ∧ id e ≠ id self ∧
  (datetime self < datetime e ∨ datetime e = datetime self ∧ id self < id e).
Proof.
  intros self table e.
  apply (next_event_sound self table (next_query self table) e).
  - exists [example 2 10; example 3 11]. split; [apply Permutation_swap|].
    split; [|reflexivity].
    repeat constructor; unfold datetime_le; cbn; lia.
  - reflexivity.
Defined.

(** The window is wide enough whenever at most five candidate rows have a
    datetime up to that of some event [s] strictly after [self]: then
    [next_event] answers, whatever order the store gave to rows of equal
    datetime, and its answer does not come after [s] in the (datetime, id)
    order.  With [s] the true successor of [self], the answer has the
    successor's key. *)
Theorem next_event_accurate self table w s :
  next_window self table w →
  s ∈ next_candidates self table → after self s = true →
  (length (filter (λ c, datetime c ≤ datetime s)%Z (next_candidates self table)) ≤ 5)%nat →
  ∃ e, next_event_of self w = Some e ∧
       key_le (EVENT_ORDERING_KEY e) (EVENT_ORDERING_KEY s) = true.
Proof.
  intros (rows & Hp & Hsorted & ->) Hs Hafter Hlen.
  rewrite <- Hp in Hs, Hlen.
  assert (s ∈ take 5 rows) as Hwin.
  { by apply (elem_of_take_sorted datetime_le). }
  assert (s ∈ filter (λ e, after self e) (take 5 rows)) as Hf.
  { apply list_elem_of_filter. split; [by apply Is_true_true|done]. }
  unfold next_event_of.
  destruct (head _) as [e|] eqn:Hhead.
  - exists e. split; [done|]. apply head_sort_by_key in Hhead as [_ Hmin].
    by apply Hmin.
  - apply head_sort_by_key_None in Hhead. rewrite Hhead in Hf.
    by apply elem_of_nil in Hf.
Qed.

Lemma next_event_accurate_witness :
  ∃ e, next_event_of (example 1 10)
         (next_query (example 1 10) [example 3 11; example 2 10; example 1 10]) = Some e ∧
       key_le (EVENT_ORDERING_KEY e) (EVENT_ORDERING_KEY (example 2 10)) = true.
Proof.
  apply (next_event_accurate (example 1 10)
           [example 3 11; example 2 10; example 1 10] _ (example 2 10)).
  - exists [example 2 10; example 3 11]. split; [apply Permutation_swap|].
    split; [|reflexivity].
    repeat constructor; unfold datetime_le; cbn; lia.
  - vm_compute. right. left.
  - reflexivity.
  - vm_compute. lia.
Defined.

(** Three events of one group at seconds T, T and T+1 with ids 1, 2 and 3:
    the event after the first is the second, which shares its second and
    has the greater id, in whatever order the store returns the rows. *)
Theorem next_event_same_second (T : Z) (w : list t) :
  next_window (example 1 T) [example 1 T; example 2 T; example 3 (T + 1)] w →
  next_event_of (example 1 T) w = Some (example 2 T).
Proof.
  intros (rows & Hp & Hsorted & ->).
  assert (next_candidates (example 1 T) [example 1 T; example 2 T; example 3 (T + 1)]
          = [example 2 T; example 3 (T + 1)]) as Hc.
  { unfold next_candidates. rewrite !filter_cons, filter_nil.
    rewrite decide_False by (cbn; intros (_ & _ & ?); done).
    rewrite decide_True by (cbn; split; [lia|done]).
    by rewrite decide_True by (cbn; split; [lia|done]). }
  rewrite Hc in Hp. symmetry in Hp.
  apply Permutation_length_2_inv in Hp as [->| ->].
  - unfold next_event_of. cbn [take]. rewrite !filter_cons, filter_nil.
    rewrite !decide_True by (apply Is_true_true, after_spec; cbn; lia).
    unfold sort_by_key. cbn. unfold key_le. cbn.
    by replace (T <? T + 1) with true by lia.
  - exfalso. apply StronglySorted_inv in Hsorted as [_ Hall].
    apply Forall_inv in Hall. unfold datetime_le in Hall. cbn in Hall. lia.
Qed.

Lemma next_event_same_second_witness :
  next_event_of (example 1 10)
    (next_query (example 1 10) [example 1 10; example 2 10; example 3 (10 + 1)])
  = Some (example 2 10).
Proof.
  apply (next_event_same_second 10).
  exists [example 2 10; example 3 11]. split; [reflexivity|].
  split; [|reflexivity].
  repeat constructor; unfold datetime_le; cbn; lia.
Defined.

(** [prev_event] answers None exactly when none of the rows lies strictly
    before [self]. *)
Theorem prev_event_of_None self events :
  prev_event_of self events = None ↔ ∀ e, e ∈ events → before self e = false.
Proof.
  unfold prev_event_of. rewrite head_sort_by_key_None. split.
  - intros Hnil e He. destruct (before self e) eqn:E; [|done].
    exfalso. apply (filter_nil_not_elem_of _ _ e Hnil); [|done].
    by apply Is_true_true.
  - intros Hall. induction events as [|x l IH]; [done|].
    rewrite filter_cons. rewrite decide_False.
    + apply IH. intros e He. apply Hall. by right.
    + rewrite (Hall x) by left. by intros [].
Qed.

(** On any window the store may return, [prev_event] looks at no more than
    five rows and answers with a row of the same group, other than [self],
    that lies strictly before [self] in the (datetime, id) order and is the
    greatest such row of the window. *)
Theorem prev_event_sound self table w e :
  prev_window self table w → prev_event_of self w = Some e →
  (length w ≤ 5)%nat ∧ e ∈ table ∧
  group_id e = group_id self ∧ id e ≠ id self ∧
  (datetime e < datetime self ∨ datetime e = datetime self ∧ id e < id self) ∧
  ∀ e', e' ∈ w → before self e' = true →
        key_le (EVENT_ORDERING_KEY e') (EVENT_ORDERING_KEY e) = true.
Proof.
  intros Hw [Hin Hmax]%head_sort_by_key.
  apply list_elem_of_filter in Hin as [Hbefore%Is_true_true Hin].
  destruct (prev_window_elem _ _ _ _ Hw Hin) as (? & ? & ? & ?).
  apply before_spec in Hbefore.
  split; [destruct Hw as (rows & _ & _ & ->); rewrite length_take; lia|].
  do 4 (split; [done|]). intros e' He' Hb'.
  apply Hmax, list_elem_of_filter. split; [by apply Is_true_true|done].
Qed.

Lemma prev_event_sound_witness :
  let self := example 3 11 in
  let table := [example 3 11; example 2 10; example 1 10] in
  let e := example 2 10 in
  (length (prev_query self table) ≤ 5)%nat ∧ e ∈ table ∧
  group_id e = group_id self ∧ id e ≠ id self ∧
  (datetime e < datetime self ∨ datetime e = datetime self ∧ id e < id self) ∧
  ∀ e', e' ∈ prev_query self table → before self e' = true →
        key_le (EVENT_ORDERING_KEY e') (EVENT_ORDERING_KEY e) = true.
Proof.
  intros self table e.
  apply (prev_event_sound self table (prev_query self table) e).
  - exists [example 2 10; example 1 10]. split; [reflexivity|].
    split; [|reflexivity].
    repeat constructor; unfold datetime_ge; cbn; lia.
  - reflexivity.
Defined.

(** The window is wide enough whenever at most five candidate rows have a
    datetime from that of some event [s] strictly before [self] onwards:
    then [prev_event] answers, and its answer does not come before [s] in
    the (datetime, id) order. *)
Theorem prev_event_accurate self table w s :
  prev_window self table w →
  s ∈ prev_candidates self table → before self s = true →
  (length (filter (λ c, datetime s ≤ datetime c)%Z (prev_candidates self table)) ≤ 5)%nat →
  ∃ e, prev_event_of self w = Some e ∧
       key_le (EVENT_ORDERING_KEY s) (EVENT_ORDERING_KEY e) = true.
Proof.
  intros (rows & Hp & Hsorted & ->) Hs Hbefore Hlen.
  rewrite <- Hp in Hs, Hlen.
  assert (s ∈ take 5 rows) as Hwin.
  { by apply (elem_of_take_sorted datetime_ge). }
  assert (s ∈ filter (λ e, before self e) (take 5 rows)) as Hf.
  { apply list_elem_of_filter. split; [by apply Is_true_true|done]. }
  unfold prev_event_of.
  destruct (head _) as [e|] eqn:Hhead.
  - exists e. split; [done|]. apply head_sort_by_key in Hhead as [_ Hmax].
    by apply Hmax.
  - apply head_sort_by_key_None in Hhead. rewrite Hhead in Hf.
    by apply elem_of_nil in Hf.
Qed.

Lemma prev_event_accurate_witness :
  ∃ e, prev_event_of (example 3 11)
         (prev_query (example 3 11) [example 3 11; example 2 10; example 1 10]) = Some e ∧
       key_le (EVENT_ORDERING_KEY (example 2 10)) (EVENT_ORDERING_KEY e) = true.
Proof.
  apply (prev_event_accurate (example 3 11)
           [example 3 11; example 2 10; example 1 10] _ (example 2 10)).
  - exists [example 2 10; example 1 10]. split; [reflexivity|].
    split; [|reflexivity].
    repeat constructor; unfold datetime_ge; cbn; lia.
  - vm_compute. left.
  - reflexivity.
  - vm_compute. lia.
Defined.

Lemma NoDup_fmap_elem_inj {A B} (f : A → B) (l : list A) x y :
  NoDup (f <$> l) → x ∈ l → y ∈ l → f x = f y → x = y.
Proof.
  induction l as [|a l IH]; intros Hnd Hx Hy Hf; [by apply elem_of_nil in Hx|].
  rewrite fmap_cons in Hnd. apply NoDup_cons in Hnd as [Ha Hnd].
  apply elem_of_cons in Hx as [->|Hx]; apply elem_of_cons in Hy as [->|Hy]; auto.
  - exfalso. apply Ha. rewrite Hf. by apply list_elem_of_fmap_2.
  - exfalso. apply Ha. rewrite <- Hf. by apply list_elem_of_fmap_2.
Qed.

(** With at most five other rows in the group, the window holds every
    candidate. *)
Lemma window_all (P : t → Prop) `{∀ x, Decision (P x)} (self : t) (table rows : list t) :
  (length (filter (λ c, group_id c = group_id self) table) ≤ 6)%nat →
  self ∈ table → ¬ P self → (∀ c, P c → group_id c = group_id self) →
  rows ≡ₚ filter P table → take 5 rows ≡ₚ filter P table.
Proof.
  intros Hlen Hself Hnot Hgroup Hp.
  rewrite take_ge; [done|]. rewrite Hp.
  assert (filter P table = filter P (filter (λ c, group_id c = group_id self) table)) as ->.
  { rewrite list_filter_filter. apply list_filter_iff. intros c. split; [auto|by intros []]. }
  assert (self ∈ filter (λ c, group_id c = group_id self) table) as Hin.
  { by apply list_elem_of_filter. }
  pose proof (length_filter_lt P _ _ Hin Hnot). lia.
Qed.

(** In a group of at most six rows with distinct ids, going to the next
    event and back gives the event one started from. *)
Theorem next_then_prev self table w e w' :
  NoDup (id <$> table) → self ∈ table →
  (length (filter (λ c, group_id c = group_id self) table) ≤ 6)%nat →
  next_window self table w → next_event_of self w = Some e →
  prev_window e table w' →
  prev_event_of e w' = Some self.
Proof.
  intros Hnd Hself Hlen (rows & Hp & _ & ->) [Hin Hmin]%head_sort_by_key
    (rows' & Hp' & _ & ->).
  apply (window_all _ self) in Hp;
    [|done|done|by intros (_ & _ & ?)|by intros ? (_ & ? & _)].
  apply list_elem_of_filter in Hin as [Hafter%Is_true_true He].
  rewrite Hp in He. apply list_elem_of_filter in He as [(Hdt & Hg & Hid) He].
  apply (window_all _ e) in Hp';
    [|by rewrite Hg|done|by intros (_ & _ & ?)|intros ? (_ & ? & _); congruence].
  assert (self ∈ filter (λ x, before e x) (take 5 rows')) as Hs.
  { apply list_elem_of_filter. split.
    - apply Is_true_true, before_spec. apply after_spec in Hafter. lia.
    - rewrite Hp'. apply list_elem_of_filter. split; [|done].
      split; [done|]. split; [done|]. congruence. }
  unfold prev_event_of. destruct (head _) as [p|] eqn:Hhead.
  2:{ apply head_sort_by_key_None in Hhead. rewrite Hhead in Hs.
      by apply elem_of_nil in Hs. }
  apply head_sort_by_key in Hhead as [Hpin Hmax].
  specialize (Hmax self Hs). unfold by_key, key_ge in Hmax.
  apply key_le_spec in Hmax. cbn in Hmax.
  apply list_elem_of_filter in Hpin as [Hbefore%Is_true_true Hpin].
  rewrite Hp' in Hpin. apply list_elem_of_filter in Hpin as [(Hdt' & Hg' & Hid') Hpin].
  apply before_spec in Hbefore.
  destruct (decide (id p = id self)) as [Heq|Hne].
  { f_equal. by apply (NoDup_fmap_elem_inj id table). }
  exfalso.
  assert (p ∈ filter (λ x, after self x) (take 5 rows)) as Hpw.
  { apply list_elem_of_filter. split.
    - apply Is_true_true, after_spec. lia.
    - rewrite Hp. apply list_elem_of_filter. split; [|done].
      split; [lia|]. split; [congruence|done]. }
  specialize (Hmin p Hpw). unfold by_key in Hmin.
  apply key_le_spec in Hmin. cbn in Hmin. lia.
Qed.

Lemma next_then_prev_witness :
  let table := [example 3 11; example 2 10; example 1 10] in
  prev_event_of (example 2 10) (prev_query (example 2 10) table) = Some (example 1 10).
Proof.
  intros table.
  apply (next_then_prev (example 1 10) table (next_query (example 1 10) table)
           (example 2 10)).
  - cbn. repeat (apply NoDup_cons; split; [rewrite ?elem_of_cons, elem_of_nil; lia|]).
    apply NoDup_nil_2.
  - vm_compute. do 2 right. left.
  - vm_compute. lia.
  - exists [example 2 10; example 3 11]. split; [apply Permutation_swap|].
    split; [|reflexivity].
    repeat constructor; unfold datetime_le; cbn; lia.
  - reflexivity.
  - exists [example 1 10]. split; [reflexivity|]. split; [|reflexivity].
    repeat constructor.
Defined.
End neighbours.

(** ** Tags and tag lookup *)

Lemma traverse_unpack2_fmap pairs :
  traverse unpack2 ((λ p : atom * atom, Sequence [p.1; p.2]) <$> pairs) = Ok pairs.
Proof.
  induction pairs as [|[t v] pairs IH]; cbn; [done|]. by rewrite IH.
Qed.

(** The first entry that is not a pair decides for the whole tag list: if
    it is a sequence of a wrong length, the accessor answers the empty list
    (the ValueError of the unpacking is caught), not the well-formed
    remainder; if it cannot be iterated, its TypeError leaves the
    accessor. *)
Theorem EventCommon_tags_malformed (pairs rest : list tag_entry) (bad : tag_entry) :
  Forall is_pair pairs → ¬ is_pair bad →
  EventCommon_tags (RawEntries (pairs ++ bad :: rest))
  = match bad with
    | Sequence _ => Ok []
    | NotIterable => Raise TypeError
    end.
Proof.
  intros Hpairs Hbad. unfold EventCommon_tags. cbn [iter_raw_tags bind].
  destruct (unpack2 bad) as [p|e] eqn:Hu.
  { destruct Hbad. apply is_pair_unpack2. eauto. }
  rewrite (traverse_unpack2_Raise pairs bad rest e Hpairs Hu).
  by destruct (unpack2_exn _ _ Hu) as [[-> Hne]|[-> ->]]; [destruct bad|].
Qed.

Lemma EventCommon_tags_malformed_witness :
  EventCommon_tags
    (RawEntries ([Sequence [Some "a"; Some "b"]] ++ Sequence [Some "foo"] :: [NotIterable]))
    = Ok [] ∧
  EventCommon_tags
    (RawEntries ([Sequence [Some "a"; Some "b"]] ++ NotIterable :: [Sequence [Some "foo"]]))
    = Raise TypeError.
Proof.
  split.
  - apply (EventCommon_tags_malformed [Sequence [Some "a"; Some "b"]] [NotIterable]
             (Sequence [Some "foo"])).
    + repeat constructor.
    + intros [].
  - apply (EventCommon_tags_malformed [Sequence [Some "a"; Some "b"]]
             [Sequence [Some "foo"]] NotIterable).
    + repeat constructor.
    + intros [].
Defined.

(** When every entry is a pair, the accessor returns exactly the entries
    whose key and value are both set. *)
Theorem EventCommon_tags_entries (raw : list (list atom)) :
  Forall (λ item, length item = 2%nat) raw →
  ∃ l, EventCommon_tags (RawEntries (Sequence <$> raw)) = Ok l ∧
       ∀ k v, (k, v) ∈ l ↔ k ≠ None ∧ v ≠ None ∧ [k; v] ∈ raw.
Proof.
  intros Hall.
  assert (∃ pairs, raw = (λ p, [p.1; p.2]) <$> pairs) as [pairs ->].
  { induction Hall as [|item raw Hitem _ [pairs ->]]; [by exists []|].
    destruct item as [|t [|v [|]]]; try done. by exists ((t, v) :: pairs). }
  unfold EventCommon_tags. cbn [iter_raw_tags bind].
  rewrite <- list_fmap_compose.
  change (Sequence ∘ _) with (λ p : atom * atom, Sequence [p.1; p.2]).
  rewrite traverse_unpack2_fmap.
  eexists. split; [done|]. intros k v.
  rewrite sorted_tags_perm, list_elem_of_filter, list_elem_of_fmap.
  rewrite andb_True, !Is_true_true, !is_not_none_spec. cbn. split.
  - intros [[? ?] ?]. split; [done|]. split; [done|]. by exists (k, v).
  - intros (? & ? & [t' v'] & [= -> ->] & ?). done.
Qed.

Lemma EventCommon_tags_entries_witness :
  ∃ l, EventCommon_tags (RawEntries (Sequence <$> example_raw_tags)) = Ok l ∧
       ∀ k v, (k, v) ∈ l ↔ k ≠ None ∧ v ≠ None ∧ [k; v] ∈ example_raw_tags.
Proof.
  apply (EventCommon_tags_entries example_raw_tags).
  repeat constructor.
Defined.

(** [SnubaEvent.tags] pairs the two columns position by position when they
    have the same length, and answers the empty list when they do not. *)
Theorem SnubaEvent_tags_columns (ks vs : list atom) :
  (length ks = length vs → SnubaEvent_tags (Some ks) (Some vs) ≡ₚ zip ks vs) ∧
  (length ks ≠ length vs → SnubaEvent_tags (Some ks) (Some vs) = []).
Proof.
  unfold SnubaEvent_tags. split.
  - intros Hlen. rewrite <- Hlen, Nat.eqb_refl, andb_true_r.
    destruct ks as [|k ks]; [done|]. destruct vs as [|v vs]; [done|].
    cbn [length Nat.eqb negb andb]. apply sorted_tags_perm.
  - intros Hlen. apply Nat.eqb_neq in Hlen. rewrite Hlen. by rewrite andb_false_r.
Qed.

Lemma SnubaEvent_tags_columns_witness :
  SnubaEvent_tags (Some [Some "b"; Some "a"]) (Some [Some "1"; None])
    ≡ₚ zip [Some "b"; Some "a"] [Some "1"; None] ∧
  SnubaEvent_tags (Some [Some "b"; Some "a"]) (Some [Some "1"]) = [].
Proof.
  split.
  - apply (proj1 (SnubaEvent_tags_columns [Some "b"; Some "a"] [Some "1"; None])).
    reflexivity.
  - apply (proj2 (SnubaEvent_tags_columns [Some "b"; Some "a"] [Some "1"])).
    cbn. lia.
Defined.

Lemma get_tag_Some l key v : get_tag l key = Some v → (Some key, Some v) ∈ l.
Proof.
  induction l as [|[t x] l IH]; cbn; [done|].
  case_decide as Ht; [intros ->; subst t; left|right; auto].
Qed.

Lemma get_tag_None l key :
  Forall no_none l → get_tag l key = None → ∀ v, (Some key, v) ∉ l.
Proof.
  induction 1 as [|[t x] l [_ Hx] _ IH]; cbn; [intros _ v ?%elem_of_nil; done|].
  case_decide as Ht; [intros ->; by destruct Hx|].
  intros Hnone v [[= <- <-]|Hin]%elem_of_cons; [done|]. by eapply IH.
Qed.

Lemma get_tag_least l key v :
  StronglySorted tag_le l → get_tag l key = Some v →
  ∀ v', (Some key, Some v') ∈ l → String.le v v'.
Proof.
  induction 1 as [|[t x] l Hl IH Hall]; cbn; [done|].
  case_decide as Ht.
  - intros -> v' [[= _ ->]|Hin]%elem_of_cons; [done|]. subst t.
    eapply Forall_forall in Hall; [|exact Hin].
    unfold tag_le in Hall. by rewrite decide_True in Hall.
  - intros Hget v' [[= <- <-]|Hin]%elem_of_cons; [done|]. by apply IH.
Qed.

Lemma get_tag_elem l key :
  (∃ v, (Some key, v) ∈ l) → (Some key, get_tag l key) ∈ l.
Proof.
  induction l as [|[t x] l IH]; cbn; intros [v Hin]; [by apply elem_of_nil in Hin|].
  case_decide as Ht; [subst t; left|].
  right. apply IH. apply elem_of_cons in Hin as [[= <- <-]|Hin]; [done|eauto].
Qed.

Lemma get_tag_absent l key :
  (∀ v, (Some key, v) ∉ l) → get_tag l key = None.
Proof.
  induction l as [|[t x] l IH]; cbn; intros Hno; [done|].
  case_decide as Ht; [subst t; destruct (Hno x); left|].
  apply IH. intros v Hin. apply (Hno v). by right.
Qed.

Lemma get_tag_least_atom l key :
  StronglySorted tag_le l →
  ∀ v', (Some key, v') ∈ l → atom_le (get_tag l key) v'.
Proof.
  induction 1 as [|[t x] l Hl IH Hall]; cbn; intros v' Hin;
    [by apply elem_of_nil in Hin|].
  case_decide as Ht.
  - subst t. apply elem_of_cons in Hin as [[= <-]|Hin]; [done|].
    eapply Forall_forall in Hall; [|exact Hin].
    unfold tag_le in Hall. by rewrite decide_True in Hall.
  - apply elem_of_cons in Hin as [[= <- <-]|Hin]; [done|]. by apply IH.
Qed.

(** [get_tag] on the tags of an event, of either variant: the first match
    wins, so for a key that occurs the answer is the least of its values
    ([None] below every string, the list being sorted), and for a key that
    does not occur it is None.  On [EventCommon.tags], which holds no
    [None], the answer is None only for a key that does not occur; on
    [SnubaEvent.tags] it is None as well for a key that occurs with the
    value [None]. *)
Theorem get_tag_of_tags :
  (∀ raw l key,
     EventCommon_tags raw = Ok l →
     match get_tag l key with
     | Some v => (Some key, Some v) ∈ l ∧
                 ∀ v', (Some key, Some v') ∈ l → String.le v v'
     | None => ∀ v, (Some key, v) ∉ l
     end) ∧
  (∀ keys values key,
     let l := SnubaEvent_tags keys values in
     ((∃ v, (Some key, v) ∈ l) →
      (Some key, get_tag l key) ∈ l ∧
      ∀ v', (Some key, v') ∈ l → atom_le (get_tag l key) v') ∧
     ((∀ v, (Some key, v) ∉ l) → get_tag l key = None) ∧
     ((Some key, None) ∈ l → get_tag l key = None)).
Proof.
  split.
  - intros raw l key [Hsorted Hnn]%EventCommon_tags_ok.
    destruct (get_tag l key) as [v|] eqn:Hget.
    + split; [by apply get_tag_Some|by apply get_tag_least].
    + by apply get_tag_None.
  - intros keys values key l.
    pose proof (SnubaEvent_tags_sorted keys values) as Hsorted. fold l in Hsorted.
    split; [|split].
    + intros Hocc. split; [by apply get_tag_elem|by apply get_tag_least_atom].
    + apply get_tag_absent.
    + intros Hin. pose proof (get_tag_least_atom l key Hsorted None Hin) as Hle.
      by destruct (get_tag l key).
Qed.

Lemma get_tag_of_tags_witness :
  ((Some "level", Some "debug") ∈ [(Some "level", Some "debug"); (Some "level", Some "error");
                                   (Some "sentry:release", Some "2.0")] ∧
   ∀ v', (Some "level", Some v') ∈ [(Some "level", Some "debug"); (Some "level", Some "error");
                                    (Some "sentry:release", Some "2.0")] →
         String.le "debug" v') ∧
  get_tag (SnubaEvent_tags (Some [Some "level"; Some "level"]) (Some [Some "error"; None]))
          "level" = None.
Proof.
  split.
  - apply (proj1 get_tag_of_tags (RawEntries (Sequence <$> example_raw_tags))
             [(Some "level", Some "debug"); (Some "level", Some "error");
              (Some "sentry:release", Some "2.0")] "level").
    reflexivity.
  - apply (proj2 get_tag_of_tags (Some [Some "level"; Some "level"])
             (Some [Some "error"; None]) "level").
    vm_compute. left.
Defined.

(** ** EventCommon.as_dict *)

Section as_dict_facts.
Import EventCommon.

Lemma od_set_keys d k v :
  (od_set d k v).*1 = if decide (k ∈ d.*1) then d.*1 else d.*1 ++ [k].
Proof.
  induction d as [|[k' v'] d IH]; cbn.
  - by rewrite decide_False by apply not_elem_of_nil.
  - destruct (decide (k' = k)) as [->|Hne]; cbn.
    + by rewrite decide_True by left.
    + rewrite IH. destruct (decide (k ∈ d.*1)) as [Hin|Hnin].
      * by rewrite decide_True by (by right).
      * rewrite decide_False; [done|].
        intros [?|?]%elem_of_cons; congruence.
Qed.

Lemma od_get_set d k v k' :
  od_get (od_set d k v) k' = if decide (k = k') then Some v else od_get d k'.
Proof.
  induction d as [|[k0 v0] d IH]; cbn.
  - by destruct (decide (k = k')).
  - destruct (decide (k0 = k)) as [->|Hne]; cbn.
    + by destruct (decide (k = k')).
    + rewrite IH. destruct (decide (k0 = k')) as [->|]; [|done].
      by rewrite decide_False by congruence.
Qed.

Lemma od_get_None d k : od_get d k = None ↔ k ∉ d.*1.
Proof.
  induction d as [|[k' v'] d IH]; cbn.
  - split; [intros _; apply not_elem_of_nil|done].
  - destruct (decide (k' = k)) as [->|Hne].
    + split; [done|]. intros []. left.
    + rewrite IH, not_elem_of_cons. split; [auto|by intros []].
Qed.

Lemma od_get_Some_elem d k v : od_get d k = Some v → (k, v) ∈ d.
Proof.
  induction d as [|[k' v'] d IH]; cbn; [done|].
  destruct (decide (k' = k)) as [->|Hne]; [intros [= ->]; left|right; auto].
Qed.

Lemma od_get_elem d k v : NoDup d.*1 → (k, v) ∈ d → od_get d k = Some v.
Proof.
  induction d as [|[k' v'] d IH]; cbn; [by intros _ ?%elem_of_nil|].
  intros [Hk Hnd]%NoDup_cons [[= -> ->]|Hin]%elem_of_cons.
  - by rewrite decide_True.
  - rewrite decide_False; [by apply IH|]. intros ->. apply Hk.
    apply list_elem_of_fmap. by exists (k, v).
Qed.

Lemma od_get_app d1 d2 k :
  od_get (d1 ++ d2) k = match od_get d1 k with Some v => Some v | None => od_get d2 k end.
Proof.
  induction d1 as [|[k' v'] d1 IH]; cbn; [done|]. by destruct (decide (k' = k)).
Qed.

Lemma od_set_new d k v : k ∉ d.*1 → od_set d k v = d ++ [(k, v)].
Proof.
  induction d as [|[k' v'] d IH]; cbn; [done|].
  intros [? ?]%not_elem_of_cons. rewrite decide_False by done. by rewrite IH.
Qed.

Lemma StronglySorted_filter {A} (R : relation A) (P : A → Prop)
    `{∀ x, Decision (P x)} (l : list A) :
  StronglySorted R l → StronglySorted R (filter P l).
Proof.
  induction 1 as [|x l Hl IH Hx]; [constructor|].
  rewrite filter_cons. case_decide; [|done]. constructor; [done|].
  apply Forall_forall. intros y [_ Hy]%list_elem_of_filter.
  by eapply Forall_forall in Hx.
Qed.

Lemma filter_ext_elem {A} (P Q : A → Prop) `{∀ x, Decision (P x)}
    `{∀ x, Decision (Q x)} (l : list A) :
  (∀ x, x ∈ l → P x ↔ Q x) → filter P l = filter Q l.
Proof.
  induction l as [|x l IH]; intros Hext; [done|].
  rewrite !filter_cons. rewrite IH by (intros y Hy; apply Hext; by right).
  destruct (decide (P x)) as [HP|HP].
  - by rewrite decide_True by (apply Hext; [left|done]).
  - rewrite decide_False; [done|]. intros HQ. apply HP, Hext; [left|done].
Qed.

(** What the loop over the payload leaves behind: the dictionary it started
    from, followed by one entry for every item whose key was not there
    yet, in the order of the items. *)
Lemma add_items_spec acc items d :
  NoDup items.*1 → add_items acc items = Ok d →
  ∃ added, d = acc ++ added ∧
    Forall2 (λ item new, new.1 = item.1 ∧ payload_value item.1 item.2 = Ok new.2)
            (filter (λ item, item.1 ∉ acc.*1) items) added.
Proof.
  revert acc. induction items as [|[k v] items IH]; intros acc Hnd Hd; cbn in Hnd, Hd.
  - injection Hd as <-. exists []. by rewrite app_nil_r.
  - apply NoDup_cons in Hnd as [Hk Hnd].
    unfold od_contains in Hd. case_bool_decide as Hin; cbn in Hd.
    + apply IH in Hd as (added & -> & Hall); [|done].
      exists added. split; [done|].
      by rewrite filter_cons, decide_False by (cbn; tauto).
    + destruct (payload_value k v) as [v'|] eqn:Hv; cbn in Hd; [|done].
      rewrite od_set_new in Hd by done.
      apply IH in Hd as (added & -> & Hall); [|done].
      exists ((k, v') :: added). split; [by rewrite <- app_assoc|].
      rewrite filter_cons, decide_True by done. constructor; [done|].
      erewrite filter_ext_elem; [exact Hall|]. intros [k0 v0] Hin0. cbn.
      rewrite fmap_app, not_elem_of_app. cbn.
      assert (k0 ∉ [k]) as Hne.
      { intros Heq%list_elem_of_singleton. subst k0. apply Hk.
        apply list_elem_of_fmap. by exists (k, v0). }
      tauto.
Qed.

Lemma Forall2_payload_keys (items added : list (string * pyval)) :
  Forall2 (λ item new, new.1 = item.1 ∧ payload_value item.1 item.2 = Ok new.2)
          items added →
  added.*1 = items.*1.
Proof. induction 1 as [|? ? ? ? [? _]]; cbn; congruence. Qed.

Lemma sorted_items_elem data k v :
  (k, v) ∈ sorted_items data ↔ data !! k = Some v.
Proof.
  unfold sorted_items. rewrite merge_sort_Permutation. apply elem_of_map_to_list.
Qed.

Lemma sorted_items_NoDup data : NoDup (sorted_items data).*1.
Proof.
  unfold sorted_items. rewrite merge_sort_Permutation. apply NoDup_fst_map_to_list.
Qed.

Global Instance item_le_trans : Transitive item_le.
Proof. intros a b c. unfold item_le. apply (transitivity (R := String.le)). Qed.

Global Instance item_le_total : Total item_le.
Proof. intros a b. unfold item_le. apply (total String.le). Qed.

Lemma sorted_items_sorted data : StronglySorted item_le (sorted_items data).
Proof. apply StronglySorted_merge_sort; apply _. Qed.

Lemma payload_added_elem (items added : list (string * pyval)) k v :
  Forall2 (λ item new, new.1 = item.1 ∧ payload_value item.1 item.2 = Ok new.2)
          items added →
  (k, v) ∈ items → ∃ v', (k, v') ∈ added ∧ payload_value k v = Ok v'.
Proof.
  induction 1 as [|[k0 v0] [k1 v1] items added [Hk Hv] _ IH]; cbn in *.
  - by intros ?%elem_of_nil.
  - intros [[= -> ->]|Hin]%elem_of_cons.
    + exists v1. subst k1. split; [left|done].
    + destruct (IH Hin) as (v' & ? & ?). exists v'. split; [by right|done].
Qed.

Lemma fill_culprit_keys self d0 d1 :
  fill_culprit self d0 = Ok d1 →
  d1.*1 = if decide ("culprit" ∈ d0.*1) then d0.*1 else d0.*1 ++ ["culprit"].
Proof.
  unfold fill_culprit. destruct (od_get d0 "culprit") as [c|] eqn:Hc; cbn.
  - assert ("culprit" ∈ d0.*1) as Hin.
    { apply dec_stable. intros Hn. apply od_get_None in Hn. congruence. }
    rewrite decide_True by done. destruct (is_none c).
    + destruct (group_culprit self); cbn; [|done]. intros [= <-].
      by rewrite od_set_keys, decide_True.
    + by intros [= <-].
  - apply od_get_None in Hc. rewrite decide_False by done.
    destruct (group_culprit self); cbn; [|done]. intros [= <-].
    by rewrite od_set_keys, decide_False.
Qed.

Lemma fill_culprit_get self d0 d1 k :
  fill_culprit self d0 = Ok d1 → k ≠ "culprit" → od_get d1 k = od_get d0 k.
Proof.
  unfold fill_culprit. destruct (is_none _).
  - destruct (group_culprit self); cbn; [|done]. intros [= <-] Hk.
    by rewrite od_get_set, decide_False.
  - by intros [= <-].
Qed.

(** The stages of [as_dict], read off a successful run. *)
Lemma as_dict_inv self d :
  as_dict self = Ok d →
  ∃ tag_list added d1 t l,
    traverse as_dict_tag (tags self) = Ok tag_list ∧
    Forall2 (λ item new, new.1 = item.1 ∧ payload_value item.1 item.2 = Ok new.2)
            (filter (λ item, item.1 ∉ first_class) (sorted_items (data self)))
            added ∧
    fill_culprit self (as_dict_first self tag_list ++ added) = Ok d1 ∧
    title self = Ok t ∧ location self = Ok l ∧
    d = od_set (od_set d1 "title" t) "location" l.
Proof.
  unfold as_dict.
  destruct (traverse as_dict_tag (tags self)) as [tag_list|] eqn:Htags; [|done].
  cbn [bind]. change (od_set _ "tags" (VList tag_list)) with (as_dict_first self tag_list).
  destruct (add_items _ _) as [d0|] eqn:Hitems; [|done]. cbn [bind].
  apply add_items_spec in Hitems as (added & -> & Hadded); [|apply sorted_items_NoDup].
  destruct (fill_culprit _ _) as [d1|] eqn:Hc; [|done]. cbn [bind].
  destruct (title self) as [t|]; [|done]. cbn [bind].
  destruct (location self) as [l|]; [|done]. cbn [bind].
  intros [= <-]. by exists tag_list, added, d1, t, l.
Qed.

Lemma payload_rest_keys (data : gmap string pyval) added :
  Forall2 (λ item new, new.1 = item.1 ∧ payload_value item.1 item.2 = Ok new.2)
          (filter (λ item, item.1 ∉ first_class) (sorted_items data)) added →
  StronglySorted String.le added.*1 ∧ NoDup added.*1 ∧
  ∀ k, k ∈ added.*1 ↔ k ∈ dom data ∧ k ∉ first_class.
Proof.
  intros ->%Forall2_payload_keys. split; [|split].
  - apply (StronglySorted_fmap fst item_le); [by intros ? ?|].
    apply StronglySorted_filter, sorted_items_sorted.
  - eapply sublist_NoDup; [apply sorted_items_NoDup|].
    apply fmap_sublist, sublist_filter.
  - intros k. rewrite list_elem_of_fmap, elem_of_dom. split.
    + intros ([k' v] & -> & [Hk Hin]%list_elem_of_filter).
      apply sorted_items_elem in Hin. eauto.
    + intros [[v Hv] Hk]. exists (k, v). split; [done|].
      apply list_elem_of_filter. split; [done|]. by apply sorted_items_elem.
Qed.

Ltac not_first_class :=
  unfold first_class; rewrite !elem_of_cons, elem_of_nil;
  intros ?; destruct_or!; done.

Lemma od_keys_step (K tail : list string) (k : string) (D : gset string) :
  (k ∈ K ↔ k ∈ D) → k ∉ tail →
  (if decide (k ∈ K ++ tail) then K ++ tail else (K ++ tail) ++ [k])
  = K ++ tail ++ filter (λ k, k ∉ D) [k].
Proof.
  intros HK Ht. rewrite filter_cons, filter_nil.
  destruct (decide (k ∈ K ++ tail)) as [Hin|Hnin].
  - apply elem_of_app in Hin as [Hin|Hin]; [|done].
    rewrite decide_False by (intros Hn; apply Hn, HK, Hin).
    by rewrite app_nil_r.
  - rewrite not_elem_of_app in Hnin. destruct Hnin as [Hnin _].
    rewrite decide_True by (by rewrite <- HK). by rewrite app_assoc.
Qed.

(** The keys of [as_dict], in order: the nine first-class keys, then the
    payload keys that are not first-class in ascending order, then those of
    culprit, title and location that the payload does not have.  No key
    occurs twice. *)
Theorem as_dict_keys self d :
  as_dict self = Ok d →
  ∃ rest,
    d.*1 = first_class ++ rest
           ++ filter (λ k, k ∉ dom (data self)) ["culprit"; "title"; "location"] ∧
    StronglySorted String.le rest ∧
    (∀ k, k ∈ rest ↔ k ∈ dom (data self) ∧ k ∉ first_class) ∧
    NoDup d.*1.
Proof.
  intros (tag_list & added & d1 & t & l & _ & Hadded & Hc & _ & _ & ->)%as_dict_inv.
  apply payload_rest_keys in Hadded as (Hsorted & Hnd & Hrest).
  apply fill_culprit_keys in Hc. rewrite fmap_app in Hc.
  change (as_dict_first self tag_list).*1 with first_class in Hc.
  exists added.*1.
  assert (NoDup (first_class ++ added.*1)) as Hnd0.
  { apply NoDup_app. split; [|split; [|done]].
    - unfold first_class.
      repeat (apply NoDup_cons; split; [rewrite ?elem_of_cons, elem_of_nil;
                                        intros ?; destruct_or!; done|]).
      apply NoDup_nil_2.
    - intros k Hk Hin. apply Hrest in Hin. tauto. }
  assert (∀ k, k ∉ first_class → (k ∈ first_class ++ added.*1 ↔ k ∈ dom (data self)))
    as Hmem.
  { intros k Hk. rewrite elem_of_app, Hrest. tauto. }
  pose proof (Hmem "culprit" ltac:(not_first_class)) as H1.
  pose proof (Hmem "title" ltac:(not_first_class)) as H2.
  pose proof (Hmem "location" ltac:(not_first_class)) as H3.
  rewrite !od_set_keys, Hc, app_assoc. clear Hc Hmem.
  generalize dependent (first_class ++ added.*1). intros K0 Hnd0 H1 H2 H3.
  set (D := dom (data self)) in *.
  pose proof (od_keys_step K0 [] "culprit" D) as E1.
  rewrite app_nil_r in E1. cbn [app] in E1.
  rewrite E1 by (done || apply not_elem_of_nil).
  rewrite (od_keys_step K0 _ "title" D)
    by (done || (intros [_ Hin]%list_elem_of_filter;
                 by apply list_elem_of_singleton in Hin)).
  rewrite (od_keys_step K0 _ "location" D).
  2: done.
  2:{ intros [[_ Hin]%list_elem_of_filter|[_ Hin]%list_elem_of_filter]%elem_of_app;
        by apply list_elem_of_singleton in Hin. }
  assert (filter (λ k, k ∉ D) ["culprit"; "title"; "location"]
          = (filter (λ k, k ∉ D) ["culprit"] ++ filter (λ k, k ∉ D) ["title"])
            ++ filter (λ k, k ∉ D) ["location"]) as ->.
  { change ["culprit"; "title"; "location"]
      with ((["culprit"] ++ ["title"]) ++ ["location"]).
    by rewrite !filter_app. }
  split; [done|]. split; [done|]. split; [done|].
  rewrite <- !filter_app. apply NoDup_app. split; [done|]. split.
  - intros k Hk [Hn Hin]%list_elem_of_filter. cbn in Hin.
    rewrite !elem_of_cons, elem_of_nil in Hin.
    destruct Hin as [->|[->|[->|[]]]]; tauto.
  - apply NoDup_filter. cbn.
    repeat (apply NoDup_cons; split; [rewrite ?elem_of_cons, elem_of_nil;
                                      intros ?; destruct_or!; done|]).
    apply NoDup_nil_2.
Qed.

Lemma as_dict_keys_witness :
  ∃ d, as_dict example = Ok d ∧
  ∃ rest,
    d.*1 = first_class ++ rest
           ++ filter (λ k, k ∉ dom (data example)) ["culprit"; "title"; "location"] ∧
    StronglySorted String.le rest ∧
    (∀ k, k ∈ rest ↔ k ∈ dom (data example) ∧ k ∉ first_class) ∧
    NoDup d.*1.
Proof.
  eexists. split; [vm_compute; reflexivity|].
  apply (as_dict_keys example). vm_compute. reflexivity.
Defined.

(** Where a key of the dictionary gets its value from, for the keys that
    the payload loop may have written. *)
Lemma as_dict_get_payload self tag_list added d1 t l k :
  Forall2 (λ item new, new.1 = item.1 ∧ payload_value item.1 item.2 = Ok new.2)
          (filter (λ item, item.1 ∉ first_class) (sorted_items (data self)))
          added →
  fill_culprit self (as_dict_first self tag_list ++ added) = Ok d1 →
  k ∉ first_class → k ≠ "culprit" → k ≠ "title" → k ≠ "location" →
  match data self !! k with
  | Some v => ∃ v', payload_value k v = Ok v' ∧
                    od_get (od_set (od_set d1 "title" t) "location" l) k = Some v'
  | None => od_get (od_set (od_set d1 "title" t) "location" l) k = None
  end.
Proof.
  intros Hadded Hc Hk Hk1 Hk2 Hk3.
  rewrite !od_get_set, !decide_False by done.
  rewrite (fill_culprit_get _ _ _ _ Hc) by done. rewrite od_get_app.
  assert (od_get (as_dict_first self tag_list) k = None) as ->.
  { apply od_get_None. by change (as_dict_first self tag_list).*1 with first_class. }
  pose proof (payload_rest_keys _ _ Hadded) as (_ & Hnd & Hrest).
  destruct (data self !! k) as [v|] eqn:Hv.
  - destruct (payload_added_elem _ _ k v Hadded) as (v' & Hin & Hv').
    { apply list_elem_of_filter. split; [done|]. by apply sorted_items_elem. }
    exists v'. split; [done|]. by apply od_get_elem.
  - apply od_get_None. rewrite Hrest. intros [Hdom _].
    apply elem_of_dom in Hdom as [? ?]. congruence.
Qed.

(** The sdk entry of the payload is written without its client ip: if
    [as_dict] returns and the payload has an sdk entry, that entry is a
    mapping, and the dictionary holds it with the key [client_ip] removed
    and every other key unchanged. *)
Theorem as_dict_sdk_without_client_ip self d sdk :
  as_dict self = Ok d → data self !! "sdk" = Some sdk →
  ∃ s, sdk = VDict s ∧ od_get d "sdk" = Some (VDict (delete "client_ip" s)) ∧
       delete "client_ip" s !! "client_ip" = None ∧
       ∀ k, k ≠ "client_ip" → delete "client_ip" s !! k = s !! k.
Proof.
  intros (tag_list & added & d1 & t & l & _ & Hadded & Hc & _ & _ & ->)%as_dict_inv Hsdk.
  pose proof (as_dict_get_payload self tag_list added d1 t l "sdk" Hadded Hc
                ltac:(not_first_class) ltac:(done) ltac:(done) ltac:(done)) as Hget.
  rewrite Hsdk in Hget. destruct Hget as (v' & Hv' & Hget).
  unfold payload_value in Hv'. rewrite decide_True in Hv' by done.
  destruct sdk as [| | | | |s]; try done. injection Hv' as <-.
  exists s. split; [done|]. split; [done|].
  split; [apply lookup_delete_eq|]. intros k Hk. by apply lookup_delete_ne.
Qed.

Lemma as_dict_sdk_without_client_ip_witness :
  ∃ d, as_dict example = Ok d ∧
  ∃ s, VDict {[ "name" := VStr "raven"; "client_ip" := VStr "10.0.0.1" ]} = VDict s ∧
       od_get d "sdk" = Some (VDict (delete "client_ip" s)) ∧
       delete "client_ip" s !! "client_ip" = None ∧
       ∀ k, k ≠ "client_ip" → delete "client_ip" s !! k = s !! k.
Proof.
  eexists. split; [vm_compute; reflexivity|].
  apply (as_dict_sdk_without_client_ip example); [vm_compute; reflexivity|reflexivity].
Defined.

(** The first-class entries carry the attributes of the event even when the
    payload has keys of the same names, title and location carry the
    computed values whatever the payload says, and every other payload
    entry except sdk and culprit is passed through unchanged. *)
Theorem as_dict_values self d :
  as_dict self = Ok d →
  od_get d "event_id" = Some (event_id self) ∧
  od_get d "project" = Some (project_id self) ∧
  od_get d "release" = Some (atom_to_py (release (tags self))) ∧
  od_get d "dist" = Some (atom_to_py (dist (tags self))) ∧
  od_get d "platform" = Some (platform self) ∧
  od_get d "message" = Some (real_message self) ∧
  od_get d "datetime" = Some (datetime self) ∧
  od_get d "time_spent" = Some (time_spent self) ∧
  (∃ tag_list, traverse as_dict_tag (tags self) = Ok tag_list ∧
               od_get d "tags" = Some (VList tag_list)) ∧
  (∃ t, title self = Ok t ∧ od_get d "title" = Some t) ∧
  (∃ l, location self = Ok l ∧ od_get d "location" = Some l) ∧
  ∀ k, k ∉ first_class → k ∉ ["sdk"; "culprit"; "title"; "location"] →
       od_get d k = data self !! k.
Proof.
  intros (tag_list & added & d1 & t & l & Htags & Hadded & Hc & Ht & Hl & ->)%as_dict_inv.
  assert (∀ k v, od_get (as_dict_first self tag_list) k = Some v →
                 od_get (od_set (od_set d1 "title" t) "location" l) k = Some v) as Hfirst.
  { intros k v Hk.
    assert (k ∈ first_class) as Hin.
    { change first_class with (as_dict_first self tag_list).*1.
      apply dec_stable. intros Hn. apply od_get_None in Hn. congruence. }
    rewrite !od_get_set, !decide_False by (intros <-; revert Hin; not_first_class).
    rewrite (fill_culprit_get _ _ _ _ Hc) by (intros ->; revert Hin; not_first_class).
    by rewrite od_get_app, Hk. }
  do 8 (split; [by apply Hfirst|]).
  split; [exists tag_list; split; [done|by apply Hfirst]|].
  split; [exists t; split; [done|]|].
  { rewrite !od_get_set. by rewrite decide_False, decide_True. }
  split; [exists l; split; [done|]|].
  { rewrite !od_get_set. by rewrite decide_True. }
  intros k Hk Hk'.
  pose proof (as_dict_get_payload self tag_list added d1 t l k Hadded Hc Hk) as Hget.
  destruct (data self !! k) as [v|].
  - destruct Hget as (v' & Hv' & ->); [set_solver..|].
    unfold payload_value in Hv'. rewrite decide_False in Hv' by set_solver.
    by injection Hv' as ->.
  - apply Hget; set_solver.
Qed.

Lemma as_dict_values_witness :
  ∃ d, as_dict example = Ok d ∧
  od_get d "event_id" = Some (event_id example) ∧
  od_get d "project" = Some (project_id example) ∧
  od_get d "release" = Some (atom_to_py (release (tags example))) ∧
  od_get d "dist" = Some (atom_to_py (dist (tags example))) ∧
  od_get d "platform" = Some (platform example) ∧
  od_get d "message" = Some (real_message example) ∧
  od_get d "datetime" = Some (datetime example) ∧
  od_get d "time_spent" = Some (time_spent example) ∧
  (∃ tag_list, traverse as_dict_tag (tags example) = Ok tag_list ∧
               od_get d "tags" = Some (VList tag_list)) ∧
  (∃ t, title example = Ok t ∧ od_get d "title" = Some t) ∧
  (∃ l, location example = Ok l ∧ od_get d "location" = Some l) ∧
  ∀ k, k ∉ first_class → k ∉ ["sdk"; "culprit"; "title"; "location"] →
       od_get d k = data example !! k.
Proof.
  eexists. split; [vm_compute; reflexivity|].
  apply (as_dict_values example). vm_compute. reflexivity.
Defined.

Lemma payload_get self tag_list added k :
  Forall2 (λ item new, new.1 = item.1 ∧ payload_value item.1 item.2 = Ok new.2)
          (filter (λ item, item.1 ∉ first_class) (sorted_items (data self)))
          added →
  k ∉ first_class → k ≠ "sdk" →
  od_get (as_dict_first self tag_list ++ added) k = data self !! k.
Proof.
  intros Hadded Hk Hsdk. rewrite od_get_app.
  assert (od_get (as_dict_first self tag_list) k = None) as ->.
  { apply od_get_None. by change (as_dict_first self tag_list).*1 with first_class. }
  pose proof (payload_rest_keys _ _ Hadded) as (_ & Hnd & Hrest).
  destruct (data self !! k) as [v|] eqn:Hv.
  - destruct (payload_added_elem _ _ k v Hadded) as (v' & Hin & Hv').
    { apply list_elem_of_filter. split; [done|]. by apply sorted_items_elem. }
    unfold payload_value in Hv'. rewrite decide_False in Hv' by done.
    injection Hv' as <-. by apply od_get_elem.
  - apply od_get_None. rewrite Hrest. intros [Hdom _].
    apply elem_of_dom in Hdom as [? ?]. congruence.
Qed.

(** A culprit that the payload carries is kept, and the group is not loaded
    for it: [as_dict] gives the same answer whatever loading the group
    would have done.  Without one (no entry, or an entry that is None) the
    culprit of the group is filled in, and [as_dict] fails when loading the
    group fails. *)
Theorem as_dict_culprit self :
  (∀ c g, data self !! "culprit" = Some c → c ≠ VNone →
     as_dict (with_group_culprit g self) = as_dict self ∧
     ∀ d, as_dict self = Ok d → od_get d "culprit" = Some c) ∧
  (data self !! "culprit" = None ∨ data self !! "culprit" = Some VNone →
     (∀ d, as_dict self = Ok d →
        ∃ c, group_culprit self = Ok c ∧ od_get d "culprit" = Some c) ∧
     (∀ e, group_culprit self = Raise e → ∀ d, as_dict self ≠ Ok d)).
Proof.
  split.
  - intros c g Hc Hnone. split.
    + unfold as_dict.
      cbn [with_group_culprit tags data title location event_id project_id
           platform real_message datetime time_spent].
      destruct (traverse as_dict_tag (tags self)) as [tag_list|]; [|done].
      cbn [bind]. change (od_set _ "tags" (VList tag_list)) with (as_dict_first self tag_list).
      destruct (add_items _ _) as [d0|] eqn:Hitems; [|done]. cbn [bind].
      apply add_items_spec in Hitems as (added & -> & Hadded); [|apply sorted_items_NoDup].
      unfold fill_culprit.
      rewrite (payload_get self tag_list added "culprit" Hadded)
        by (done || not_first_class).
      rewrite Hc. cbn [default]. by destruct c.
    + intros d (tag_list & added & d1 & t & l & _ & Hadded & Hfill & _ & _ & ->)%as_dict_inv.
      rewrite !od_get_set, !decide_False by done.
      unfold fill_culprit in Hfill.
      rewrite (payload_get self tag_list added "culprit" Hadded) in Hfill
        by (done || not_first_class).
      rewrite Hc in Hfill. cbn [default] in Hfill.
      destruct c; try done; injection Hfill as Hfill; subst d1.
      all: rewrite <- Hc.
      all: apply (payload_get self tag_list added "culprit" Hadded);
             (done || not_first_class).
  - intros Hc.
    assert (∀ d, as_dict self = Ok d →
              ∃ c, group_culprit self = Ok c ∧ od_get d "culprit" = Some c) as Hfilled.
    { intros d (tag_list & added & d1 & t & l & _ & Hadded & Hfill & _ & _ & ->)%as_dict_inv.
      rewrite !od_get_set, !decide_False by done.
      unfold fill_culprit in Hfill.
      rewrite (payload_get self tag_list added "culprit" Hadded) in Hfill
        by (done || not_first_class).
      assert (is_none (default VNone (data self !! "culprit")) = true) as Hn.
      { by destruct Hc as [-> | ->]. }
      rewrite Hn in Hfill.
      destruct (group_culprit self) as [c|]; [|done]. cbn [bind] in Hfill.
      assert (d1 = od_set (as_dict_first self tag_list ++ added) "culprit" c) as ->
        by congruence.
      exists c. split; [done|]. by rewrite od_get_set, decide_True. }
    split; [done|]. intros e He d Hd.
    destruct (Hfilled d Hd) as (c & Hg & _). congruence.
Qed.

Lemma as_dict_culprit_witness :
  (∀ d, as_dict example = Ok d →
     ∃ c, group_culprit example = Ok c ∧ od_get d "culprit" = Some c) ∧
  (∀ e, group_culprit example = Raise e → ∀ d, as_dict example ≠ Ok d).
Proof.
  apply (proj2 (as_dict_culprit example)). left. reflexivity.
Defined.
End as_dict_facts.

(** ** The renormalization gate, continued *)

Section gate_facts.

Lemma mod_1e8_bounds (n : Z) : 0 ≤ n `mod` 10 ^ 8 < 10 ^ 8.
Proof. apply Z.mod_pos_bound. lia. Qed.

(** At a sample rate of 1 or more every event with a usable id is
    renormalized. *)
Theorem should_skip_full_rate `{Externals} (data : gmap string pyval) s n :
  data !! "event_id" = Some (VStr s) → s ≠ "" →
  int_base16 (md5_hexdigest s) = Ok n →
  (1 <= sample_rate)%Q →
  _should_skip_to_python data = Ok true.
Proof.
  intros Hid Hs Hn Hrate. unfold _should_skip_to_python.
  rewrite Hid. cbv zeta. cbn [default id truthy].
  assert (String.eqb s "" = false) as -> by (by apply String.eqb_neq).
  cbn [negb].
  assert (Qeq_bool sample_rate 0 = false) as ->.
  { apply not_true_iff_false. intros Hz%Qeq_bool_iff. rewrite Hz in Hrate.
    by apply Qle_bool_iff in Hrate. }
  cbn [md5_of bind]. rewrite Hn. cbn [bind]. f_equal.
  apply Qle_bool_iff.
  pose proof (mod_1e8_bounds n) as [_ Hlt].
  apply Qle_trans with (inject_Z (10 ^ 8)); [rewrite <- Zle_Qle; lia|].
  apply Qle_trans with (float_round (inject_Z (10 ^ 8))).
  { apply Qle_lteq. right. symmetry. apply float_round_integer. lia. }
  apply float_round_mono.
  rewrite <- (Qmult_1_l (inject_Z (10 ^ 8))) at 1.
  apply Qmult_le_compat_r; [done|]. by rewrite <- (Zle_Qle 0).
Qed.

Lemma should_skip_full_rate_witness :
  @_should_skip_to_python (example_externals 1) {["event_id" := VStr "abc"]} = Ok true.
Proof.
  apply (should_skip_full_rate (H := example_externals 1) _ "abc" 58).
  - reflexivity.
  - discriminate.
  - reflexivity.
  - cbn. unfold Qle. cbn. lia.
Defined.

(** Raising the sample rate never takes an event out of renormalization:
    an event that is renormalized at one rate, not negative, is
    renormalized at every greater rate, the digest and the rounding of
    floats being the same.  The product with [10 ** 8] is rounded, and
    rounding is monotone. *)
Theorem should_skip_monotone (E1 E2 : Externals) (data : gmap string pyval) :
  (∀ s, @md5_hexdigest E1 s = @md5_hexdigest E2 s) →
  (∀ x, (@float_round E1 x == @float_round E2 x)%Q) →
  (0 <= @sample_rate E1)%Q →
  (@sample_rate E1 <= @sample_rate E2)%Q →
  @_should_skip_to_python E1 data = Ok true →
  @_should_skip_to_python E2 data = Ok true.
Proof.
  intros Hmd5 Hround Hnonneg Hrate. unfold _should_skip_to_python. cbv zeta.
  destruct (truthy _); cbn [negb]; [|done].
  destruct (Qeq_bool (@sample_rate E1) 0) eqn:Hz1; [done|].
  destruct (default VNone (data !! "event_id")) as [| | |s| |]; try done.
  cbn [md5_of bind]. rewrite <- Hmd5.
  destruct (int_base16 _) as [n|]; [|done]. cbn [bind].
  intros [= Hle%Qle_bool_iff].
  assert (0 < inject_Z (10 ^ 8))%Q as Hpos by (by rewrite <- (Zlt_Qlt 0)).
  assert (0 < @sample_rate E1)%Q as Hr1.
  { apply Qle_lteq in Hnonneg as [?|Hzero]; [done|].
    symmetry in Hzero. apply Qeq_bool_iff in Hzero. congruence. }
  assert (Qeq_bool (@sample_rate E2) 0 = false) as ->.
  { apply not_true_iff_false. intros Hz%Qeq_bool_iff. rewrite Hz in Hrate.
    by apply (Qlt_not_le _ _ Hr1). }
  f_equal. apply Qle_bool_iff. eapply Qle_trans; [exact Hle|].
  eapply Qle_trans; [|apply Qle_lteq; right; apply Hround].
  apply float_round_mono.
  apply Qmult_le_compat_r; [done|]. by apply Qlt_le_weak.
Qed.

Lemma should_skip_monotone_witness :
  @_should_skip_to_python (example_externals 1) {["event_id" := VStr "abc"]} = Ok true.
Proof.
  apply (should_skip_monotone (example_externals (1 # 2)) (example_externals 1)).
  - reflexivity.
  - reflexivity.
  - unfold Qle. cbn. lia.
  - unfold Qle. cbn. lia.
  - reflexivity.
Defined.
End gate_facts.

(** ** SnubaEvent, continued *)

Lemma SnubaEvent_init_columns `{Externals} (row : gmap string pyval) :
  dom row = list_to_set selected_columns → ∃ e, SnubaEvent_init row = Ok e.
Proof.
  intros Hdom. unfold SnubaEvent_init. rewrite decide_True by done.
  destruct (getattr_dom row "project_id") as (p & _ & ->);
    [rewrite Hdom; set_solver|].
  destruct (getattr_dom row "event_id") as (i & _ & ->);
    [rewrite Hdom; set_solver|].
  cbn. eauto.
Qed.

(** [get_event] makes an event from an answer without an error that holds
    exactly one row, a mapping with exactly the selected columns, and only
    from such an answer; the event is that row with the node id of its
    project and event ids.  An answer with an error, or with no row or
    several, gives None. *)
Theorem SnubaEvent_get_event_one_row `{Externals} (answer : gmap string pyval) :
  (∀ row, "error" ∉ dom answer → answer !! "data" = Some (VList [VDict row]) →
     dom row = list_to_set selected_columns →
     ∃ e, SnubaEvent_get_event answer = Ok (Some e)) ∧
  (∀ e, SnubaEvent_get_event answer = Ok (Some e) →
     ("error" ∉ dom answer) ∧
     ∃ row project_id event_id,
       answer !! "data" = Some (VList [VDict row]) ∧
       dom row = list_to_set selected_columns ∧
       row !! "project_id" = Some project_id ∧
       row !! "event_id" = Some event_id ∧
       snuba_values e = row ∧
       node_id (snuba_data e) = generate_node_id project_id event_id) ∧
  ("error" ∈ dom answer ∨
   (∃ rows, answer !! "data" = Some (VList rows) ∧ length rows ≠ 1%nat) →
   SnubaEvent_get_event answer = Ok None).
Proof.
  unfold SnubaEvent_get_event, dict_item. split; [|split].
  - intros row Herr Hdata Hdom. rewrite bool_decide_false by done.
    rewrite Hdata. cbn.
    destruct (SnubaEvent_init_columns row Hdom) as [e ->]. cbn. eauto.
  - intros e. case_bool_decide as Herr; [done|].
    destruct (answer !! "data") as [rows|]; [|done]. cbn [bind].
    destruct rows as [| | |s|rows|d]; try done; cbn [py_len bind].
    + destruct (String.length s =? 1)%nat; [|done].
      destruct s; [done|]. done.
    + destruct rows as [|row [|? ?]]; try done. cbn.
      destruct row as [| | | | |row]; try done. cbn.
      destruct (SnubaEvent_init row) as [e'|] eqn:Hinit; [|done]. cbn.
      intros [= <-]. split; [done|].
      apply SnubaEvent_init_Ok in Hinit as (Hdom & Hrow & p & i & Hp & Hi & Hnode).
      exists row, p, i. done.
    + by destruct (size d =? 1)%nat.
  - intros [Herr|(rows & -> & Hlen)].
    + by rewrite bool_decide_true.
    + case_bool_decide; [done|]. cbn.
      apply Nat.eqb_neq in Hlen. by rewrite Hlen.
Qed.

Lemma SnubaEvent_get_event_one_row_witness :
  (∃ e, @SnubaEvent_get_event (example_externals 1)
          {["data" := VList [VDict example_row]]} = Ok (Some e) ∧
        snuba_values e = example_row ∧
        node_id (snuba_data e)
        = @generate_node_id (example_externals 1) (VStr "project_id") (VStr "event_id")) ∧
  @SnubaEvent_get_event (example_externals 1)
    {["data" := VList [VDict example_row; VDict example_row]]} = Ok None.
Proof.
  split.
  - destruct (proj1 (SnubaEvent_get_event_one_row (H := example_externals 1)
                       {["data" := VList [VDict example_row]]}) example_row)
      as [e He]; [vm_compute; by intros ?|reflexivity|vm_compute; reflexivity|].
    exists e. split; [exact He|].
    destruct (proj1 (proj2 (SnubaEvent_get_event_one_row (H := example_externals 1)
                              {["data" := VList [VDict example_row]]})) e He)
      as (_ & row & p & i & Hdata & _ & Hp & Hi & Hrow & Hnode).
    injection Hdata as <-. split; [done|].
    rewrite Hnode. vm_compute in Hp, Hi. by simplify_eq.
  - apply (proj2 (proj2 (SnubaEvent_get_event_one_row (H := example_externals 1) _))).
    right. exists [VDict example_row; VDict example_row]. split; [reflexivity|].
    cbn. lia.
Defined.

(** The column check of the constructor makes the accessors safe: on a
    constructed event, [id], [ip_address], [title], [culprit] and
    [location] return the columns of those names, and [get_event_type]
    returns the type column as it is, so its fallback to the name
    'default' is never taken. *)
Theorem SnubaEvent_columns_readable `{Externals} (row : gmap string pyval)
    (e : SnubaEvent) :
  SnubaEvent_init row = Ok e →
  ∃ event_id ip title culprit location type,
    row !! "event_id" = Some event_id ∧ SnubaEvent_id e = Ok event_id ∧
    row !! "ip_address" = Some ip ∧ SnubaEvent_ip_address e = Ok ip ∧
    row !! "title" = Some title ∧ SnubaEvent_title e = Ok title ∧
    row !! "culprit" = Some culprit ∧ SnubaEvent_culprit e = Ok culprit ∧
    row !! "location" = Some location ∧ SnubaEvent_location e = Ok location ∧
    row !! "type" = Some type ∧ SnubaEvent_get_event_type e = type.
Proof.
  intros (Hdom & Hrow & _)%SnubaEvent_init_Ok.
  assert (∀ c, c ∈ selected_columns → ∃ v, row !! c = Some v) as Hcol.
  { intros c Hc. apply elem_of_dom. rewrite Hdom. by apply elem_of_list_to_set. }
  destruct (Hcol "event_id") as [event_id He]; [set_solver|].
  destruct (Hcol "ip_address") as [ip Hip]; [set_solver|].
  destruct (Hcol "title") as [title Ht]; [set_solver|].
  destruct (Hcol "culprit") as [culprit Hc]; [set_solver|].
  destruct (Hcol "location") as [location Hl]; [set_solver|].
  destruct (Hcol "type") as [type Hty]; [set_solver|].
  exists event_id, ip, title, culprit, location, type.
  unfold SnubaEvent_id, SnubaEvent_ip_address, SnubaEvent_title, SnubaEvent_culprit,
    SnubaEvent_location, SnubaEvent_get_event_type, getattr, dict_item.
  rewrite Hrow, He, Hip, Ht, Hc, Hl, Hty. done.
Qed.

Lemma SnubaEvent_columns_readable_witness :
  ∃ e, @SnubaEvent_init (example_externals 1) example_row = Ok e ∧
  ∃ event_id ip title culprit location type,
    example_row !! "event_id" = Some event_id ∧ SnubaEvent_id e = Ok event_id ∧
    example_row !! "ip_address" = Some ip ∧ SnubaEvent_ip_address e = Ok ip ∧
    example_row !! "title" = Some title ∧ SnubaEvent_title e = Ok title ∧
    example_row !! "culprit" = Some culprit ∧ SnubaEvent_culprit e = Ok culprit ∧
    example_row !! "location" = Some location ∧ SnubaEvent_location e = Ok location ∧
    example_row !! "type" = Some type ∧ SnubaEvent_get_event_type e = type.
Proof.
  eexists. split; [vm_compute; reflexivity|].
  apply (SnubaEvent_columns_readable (H := example_externals 1) example_row).
  vm_compute. reflexivity.
Defined.

Lemma any_not_none (m : gmap string pyval) :
  existsb (λ v, negb (is_none v)) (map_to_list m).*2 = true ↔
  ∃ k v, m !! k = Some v ∧ v ≠ VNone.
Proof.
  rewrite existsb_exists. split.
  - intros (v & Hin & Hv). apply list_elem_of_In, list_elem_of_fmap in Hin
      as ([k v'] & -> & Hin). apply elem_of_map_to_list in Hin.
    exists k, v'. split; [done|]. by destruct v'.
  - intros (k & v & Hk & Hv). exists v. split; [|by destruct v].
    apply list_elem_of_In, list_elem_of_fmap. exists (k, v).
    split; [done|]. by apply elem_of_map_to_list.
Qed.

(** [get_interface]: for the name 'user' on a constructed event with one of
    the columns user_id, email, username, ip_address set, the answer is
    made from those four columns alone and does not depend on the
    interfaces of the payload; with all four None, and for every other
    name, the answer is the payload's interface of that name. *)
Theorem SnubaEvent_get_interface_user `{Externals} (row : gmap string pyval)
    (e : SnubaEvent) User_to_python (interfaces : gmap string pyval) :
  SnubaEvent_init row = Ok e →
  ∃ user_id email username ip,
    row !! "user_id" = Some user_id ∧ row !! "email" = Some email ∧
    row !! "username" = Some username ∧ row !! "ip_address" = Some ip ∧
    (∀ name, name ≠ "user" →
       SnubaEvent_get_interface User_to_python interfaces e name
       = Ok (default VNone (interfaces !! name))) ∧
    (user_id = VNone ∧ email = VNone ∧ username = VNone ∧ ip = VNone →
       SnubaEvent_get_interface User_to_python interfaces e "user"
       = Ok (default VNone (interfaces !! "user"))) ∧
    (user_id ≠ VNone ∨ email ≠ VNone ∨ username ≠ VNone ∨ ip ≠ VNone →
       SnubaEvent_get_interface User_to_python interfaces e "user"
       = User_to_python {[ "id" := user_id; "email" := email;
                           "username" := username; "ip_address" := ip ]}).
Proof.
  intros (Hdom & Hrow & _)%SnubaEvent_init_Ok.
  assert (∀ c, c ∈ selected_columns → ∃ v, row !! c = Some v) as Hcol.
  { intros c Hc. apply elem_of_dom. rewrite Hdom. by apply elem_of_list_to_set. }
  destruct (Hcol "user_id") as [user_id Hu]; [set_solver|].
  destruct (Hcol "email") as [email He]; [set_solver|].
  destruct (Hcol "username") as [username Hn]; [set_solver|].
  destruct (Hcol "ip_address") as [ip Hip]; [set_solver|].
  exists user_id, email, username, ip. do 4 (split; [done|]).
  unfold SnubaEvent_get_interface, SnubaEvent_ip_address, getattr, dict_item.
  rewrite Hrow, Hu, He, Hn, Hip. cbn [bind]. split; [|split].
  - intros name Hname. by rewrite decide_False.
  - intros (-> & -> & -> & ->). rewrite decide_True by done.
    destruct (existsb _ _) eqn:Hany; [|done].
    apply any_not_none in Hany as (k & v & Hk & Hv).
    repeat (apply lookup_insert_Some in Hk as [[_ <-]|[_ Hk]]; [done|]).
    by apply lookup_singleton_Some in Hk as [_ <-].
  - intros Hsome. rewrite decide_True by done.
    destruct (existsb _ _) eqn:Hany; [done|].
    apply not_true_iff_false in Hany. destruct Hany. apply any_not_none.
    destruct Hsome as [?|[?|[?|?]]].
    + exists "id", user_id. by simplify_map_eq.
    + exists "email", email. by simplify_map_eq.
    + exists "username", username. by simplify_map_eq.
    + exists "ip_address", ip. by simplify_map_eq.
Qed.

Lemma SnubaEvent_get_interface_user_witness :
  let User_to_python := λ m : gmap string pyval, Ok (VDict m) in
  let interfaces : gmap string pyval := ∅ in
  ∃ e, @SnubaEvent_init (example_externals 1) example_user_row = Ok e ∧
  ∃ user_id email username ip,
    example_user_row !! "user_id" = Some user_id ∧
    example_user_row !! "email" = Some email ∧
    example_user_row !! "username" = Some username ∧
    example_user_row !! "ip_address" = Some ip ∧
    (∀ name, name ≠ "user" →
       SnubaEvent_get_interface User_to_python interfaces e name
       = Ok (default VNone (interfaces !! name))) ∧
    (user_id = VNone ∧ email = VNone ∧ username = VNone ∧ ip = VNone →
       SnubaEvent_get_interface User_to_python interfaces e "user"
       = Ok (default VNone (interfaces !! "user"))) ∧
    (user_id ≠ VNone ∨ email ≠ VNone ∨ username ≠ VNone ∨ ip ≠ VNone →
       SnubaEvent_get_interface User_to_python interfaces e "user"
       = User_to_python {[ "id" := user_id; "email" := email;
                           "username" := username; "ip_address" := ip ]}).
Proof.
  intros User_to_python interfaces.
  eexists. split; [vm_compute; reflexivity|].
  apply (SnubaEvent_get_interface_user (H := example_externals 1) example_user_row).
  vm_compute. reflexivity.
Defined.

(** ** The subject template data *)

Lemma startswith_app (p s : string) : startswith p (p ++ s) = true.
Proof.
  induction p as [|a p IH]; [done|].
  change (String a p +:+ s) with (String a (p +:+ s)). cbn -[Ascii.eqb].
  by rewrite Ascii.eqb_refl, IH.
Qed.

Lemma string_drop_app (p s : string) : string_drop (String.length p) (p ++ s) = s.
Proof.
  induction p as [|a p IH]; [by destruct s|].
  by change (String a p +:+ s) with (String a (p +:+ s)).
Qed.

Lemma getitem_tag (event : SubjectEvent) (name : string) :
  EventSubjectTemplateData_getitem event ("tag:" ++ name)
  = match get_tag (subject_tags event) (default name (tag_aliases !! name)) with
    | None => Raise KeyError
    | Some v => Ok (VStr v)
    end.
Proof.
  unfold EventSubjectTemplateData_getitem.
  rewrite (startswith_app "tag:" name).
  by change 4%nat with (String.length "tag:"); rewrite string_drop_app.
Qed.

(** In a subject template, a tag can be named by its alias: [tag:release],
    [tag:dist] and [tag:user] look up what [tag:sentry:release],
    [tag:sentry:dist] and [tag:sentry:user] look up; and a tag lookup
    raises KeyError exactly when the event has no value for the tag. *)
Theorem subject_tag_aliases (event : SubjectEvent) (name alias : string) :
  tag_aliases !! name = Some alias →
  EventSubjectTemplateData_getitem event ("tag:" ++ name)
  = EventSubjectTemplateData_getitem event ("tag:" ++ alias) ∧
  (EventSubjectTemplateData_getitem event ("tag:" ++ name) = Raise KeyError ↔
   get_tag (subject_tags event) alias = None) ∧
  ∀ v, EventSubjectTemplateData_getitem event ("tag:" ++ name) = Ok v →
       ∃ s, v = VStr s ∧ get_tag (subject_tags event) alias = Some s.
Proof.
  intros Halias. rewrite !getitem_tag, Halias. cbn [default id].
  assert (tag_aliases !! alias = None) as ->.
  { unfold tag_aliases in *.
    repeat (apply lookup_insert_Some in Halias as [[_ <-]|[_ Halias]]; [done|]).
    by apply lookup_singleton_Some in Halias as [_ <-]. }
  cbn [default id]. split; [done|].
  destruct (get_tag _ alias) as [s|].
  - split; [split; intros [=]|]. intros v [= <-]. eauto.
  - split; [done|]. intros v [=].
Qed.

Lemma subject_tag_aliases_witness :
  EventSubjectTemplateData_getitem example_subject ("tag:" ++ "release")
  = EventSubjectTemplateData_getitem example_subject ("tag:" ++ "sentry:release") ∧
  (EventSubjectTemplateData_getitem example_subject ("tag:" ++ "release") = Raise KeyError ↔
   get_tag (subject_tags example_subject) "sentry:release" = None) ∧
  ∀ v, EventSubjectTemplateData_getitem example_subject ("tag:" ++ "release") = Ok v →
       ∃ s, v = VStr s ∧ get_tag (subject_tags example_subject) "sentry:release" = Some s.
Proof.
  apply (subject_tag_aliases example_subject "release" "sentry:release").
  reflexivity.
Defined.

(** ** Saved searches of an organization *)

Section saved_searches.
Import SavedSearch.

(** Whether the loop keeps a search that comes after [first]. *)
Lemma foldl_append_unless_pinned (pinned : option t) (results rest : list t) :
  foldl (append_unless_pinned pinned) results rest
  = results ++ filter (is_kept pinned) rest.
Proof.
  revert results. induction rest as [|s rest IH]; intros results; cbn [foldl].
  - by rewrite filter_nil, app_nil_r.
  - rewrite IH, filter_cons. unfold append_unless_pinned.
    destruct pinned as [p|]; cbn [is_kept].
    + destruct (decide (query s = query p)) as [Heq|Hne].
      * by rewrite decide_False by (by intros ?).
      * rewrite decide_True by done. by rewrite <- app_assoc.
    + rewrite decide_True by done. by rewrite <- app_assoc.
Qed.

Lemma org_level_results_head (first : t) (rest : list t) :
  head (org_level_results (first :: rest)) = Some first ∧
  (owner first = None → org_level_results (first :: rest) = first :: rest).
Proof.
  unfold org_level_results. rewrite foldl_append_unless_pinned. cbn [app head].
  split; [done|]. intros ->. f_equal. by apply filter_Forall_id, Forall_forall.
Qed.

(** The searches that the organization-level listing returns: the first
    search of the answer stays first; when it has an owner (the pinned
    search), the later searches with its query are left out and nothing
    else is; when it has none, the answer is returned as it is. *)
Theorem org_level_results_pinned (first : t) (rest : list t) :
  head (org_level_results (first :: rest)) = Some first ∧
  org_level_results (first :: rest) `sublist_of` first :: rest ∧
  (owner first = None → org_level_results (first :: rest) = first :: rest) ∧
  (owner first ≠ None →
   ∀ s, s ∈ rest →
        (s ∈ tail (org_level_results (first :: rest)) ↔ query s ≠ query first)).
Proof.
  unfold org_level_results. rewrite foldl_append_unless_pinned. cbn [app head tail].
  split; [done|]. split; [apply sublist_skip, sublist_filter|]. split.
  - intros ->. f_equal. by apply filter_Forall_id, Forall_forall.
  - intros Hown s Hs. destruct (owner first) as [o|]; [|done].
    rewrite list_elem_of_filter. cbn [is_kept]. tauto.
Qed.

Lemma org_level_results_pinned_witness :
  example 3 None "c" "is:assigned"
    ∈ tail (org_level_results
              [example 1 (Some 7) "a" "is:unresolved";
               example 2 None "b" "is:unresolved";
               example 3 None "c" "is:assigned"])
  ↔ query (example 3 None "c" "is:assigned")
    ≠ query (example 1 (Some 7) "a" "is:unresolved").
Proof.
  apply (org_level_results_pinned (example 1 (Some 7) "a" "is:unresolved")).
  - discriminate.
  - right. left.
Defined.

(** On any answer of the store to the organization-level query: when a
    search of the answer has an owner, the first one has (owned searches
    are ordered first); and if no global search has an owner, the owner of
    the first search is the requesting user, so the pinned search is the
    user's own.  When the first search has no owner, none has and the
    answer is returned as it is. *)
Theorem org_level_pinned_is_own (ISSUE : Z) (UPPER : string → string)
    (collate_le : string → string → Prop) (user organization : Z)
    (table saved_searches : list t) (first : t) :
  org_level_query ISSUE UPPER collate_le user organization table saved_searches →
  (∀ s, s ∈ table → is_global s = true → owner s = None) →
  head (org_level_results saved_searches) = Some first →
  (owner first = Some user ∧ SavedSearch.organization first = Some organization) ∨
  (owner first = None ∧ Forall (λ s, owner s = None) saved_searches ∧
   org_level_results saved_searches = saved_searches).
Proof.
  intros [Hperm Hsorted] Hglobal Hhead.
  destruct saved_searches as [|first' rest]; [done|].
  destruct (org_level_results_head first' rest) as [Hh Hnone].
  rewrite Hh in Hhead. injection Hhead as ->.
  assert (first ∈ filter (org_level_filter ISSUE user organization) table) as Hin.
  { rewrite <- Hperm. left. }
  apply list_elem_of_filter in Hin as [[Hmatch _] Hin].
  destruct (owner first) as [o|] eqn:Hown.
  - left. destruct Hmatch as [[[Ho|Ho] Horg]|Hg]; [|done|].
    + by injection Ho as ->.
    + apply (Hglobal _ Hin) in Hg. congruence.
  - right. split; [done|]. split; [|by apply Hnone].
    constructor; [done|]. apply StronglySorted_inv in Hsorted as [_ Hall].
    eapply Forall_impl; [exact Hall|]. intros s. unfold org_level_le, has_owner.
    rewrite Hown. by destruct (owner s).
Qed.

Lemma org_level_pinned_is_own_witness :
  let first := example 1 (Some 7) "a" "is:unresolved" in
  let saved_searches :=
    [first; example 2 None "b" "is:unresolved"; example 3 None "c" "is:assigned"] in
  (owner first = Some 7 ∧ SavedSearch.organization first = Some 1) ∨
  (owner first = None ∧ Forall (λ s, owner s = None) saved_searches ∧
   org_level_results saved_searches = saved_searches).
Proof.
  intros first saved_searches.
  apply (org_level_pinned_is_own 0 (λ s, s) String.le 7 1
           [example 3 None "c" "is:assigned"; first;
            example 2 None "b" "is:unresolved"] saved_searches first).
  - split.
    + etrans; [|apply Permutation_swap]. apply perm_skip, Permutation_swap.
    + repeat constructor.
  - intros s Hin Hg.
    repeat (apply elem_of_cons in Hin as [->|Hin]; [discriminate Hg|]).
    by apply elem_of_nil in Hin.
  - reflexivity.
Defined.
End saved_searches.

(** ** Recent searches *)

Section recent_searches.
Import RecentSearch.

(** The recent searches that are listed: without a [limit] parameter at
    most three, otherwise at most [limit]; each one a search of the user in
    the organization, of the requested type; most recent first; and no
    search that is left out was seen later than one that is listed. *)
Theorem recent_searches_most_recent (int_of_string : string → result Z)
    (SearchType : Z → result Z) (GET : gmap string string)
    (organization user search_type limit : Z) (table rows : list t) :
  get_params int_of_string SearchType GET = Ok (search_type, limit) →
  recent_query organization user search_type limit table (Ok rows) →
  (GET !! "limit" = None → limit = 3) ∧
  (Z.of_nat (length rows) ≤ limit) ∧
  StronglySorted recent_le rows ∧
  (∀ r, r ∈ rows →
        r ∈ table ∧ RecentSearch.organization r = organization ∧
        RecentSearch.user r = user ∧ type r = search_type) ∧
  (∀ r r', r ∈ rows → r' ∈ table →
           recent_filter organization user search_type r' →
           last_seen r < last_seen r' → r' ∈ rows).
Proof.
  intros Hparams Hquery. split.
  { intros Hnone. unfold get_params, GET_get in Hparams. rewrite Hnone in Hparams.
    destruct (int _ _) as [n|]; [|done]. cbn [bind] in Hparams.
    destruct (SearchType n); [|done]. cbn in Hparams. congruence. }
  unfold recent_query in Hquery. case_decide as Hneg; [done|].
  destruct Hquery as (sorted & Hperm & Hsorted & [= ->]).
  split; [rewrite length_take; lia|]. split.
  { rewrite <- (take_drop (Z.to_nat limit) sorted) in Hsorted.
    by apply StronglySorted_app_1_l in Hsorted. }
  split.
  - intros r Hr%subseteq_take. rewrite Hperm in Hr.
    apply list_elem_of_filter in Hr as [(? & ? & ?) ?]. done.
  - intros r r' Hr Hr' Hmatch Hlater.
    assert (r' ∈ sorted) as Hin.
    { rewrite Hperm. by apply list_elem_of_filter. }
    rewrite <- (take_drop (Z.to_nat limit) sorted) in Hin, Hsorted.
    apply elem_of_app in Hin as [Hin|Hin]; [done|]. exfalso.
    pose proof (StronglySorted_app_1_elem_of _ _ _ _ _ Hsorted Hr Hin) as Hle.
    unfold recent_le in Hle. lia.
Qed.

Lemma recent_searches_most_recent_witness :
  let GET : gmap string string := {["limit" := "2"]} in
  let table := [example "a" 10; example "b" 30; example "c" 20] in
  let rows := [example "b" 30; example "c" 20] in
  (GET !! "limit" = None → 2 = 3) ∧
  (Z.of_nat (length rows) ≤ 2) ∧
  StronglySorted recent_le rows ∧
  (∀ r, r ∈ rows →
        r ∈ table ∧ RecentSearch.organization r = 1 ∧
        RecentSearch.user r = 1 ∧ type r = 0) ∧
  (∀ r r', r ∈ rows → r' ∈ table →
           recent_filter 1 1 0 r' →
           last_seen r < last_seen r' → r' ∈ rows).
Proof.
  intros GET table rows.
  apply (recent_searches_most_recent
           (λ s, if decide (s = "2") then Ok 2 else Raise ValueError)
           (λ n, if decide (n = 0) then Ok 0 else Raise ValueError)
           GET 1 1 0 2 table rows).
  - reflexivity.
  - exists [example "b" 30; example "c" 20; example "a" 10].
    split; [|split; [|reflexivity]].
    + etrans; [apply perm_skip, Permutation_swap|].
      etrans; [apply Permutation_swap|]. apply perm_skip. reflexivity.
    + repeat constructor; unfold recent_le; cbn; lia.
Defined.
End recent_searches.
